(** * court_scrape: the asyncio Orleans scraper, embedded and verified

    A shallow embedding of [asyncio_orleans_scraper.py].  Synchronous
    methods ([log], [write_log], [check_missing], ...) are functions on an
    explicit state; [async def] methods are terms of a small coroutine
    monad whose [Yield] nodes are the suspension points ([await]), so that
    [asyncio.gather] can be given an interleaving semantics driven by an
    arbitrary schedule.

    Modelling conventions:
    - a Python [str] is a Rocq [string]; its characters stand for the code
      points below 256, the range in which [\d] and [int()] agree with
      their ASCII reading, apart from the two non-ASCII spaces handled in
      [py_isspace];
    - every exception value is an instance of [Exception]; task
      cancellation and the other [BaseException]-only signals are outside
      the model;
    - the world (clock, network, HTML parser, shuffle, disk faults) is a
      family of oracles, Section variables of [Scraper]. *)

From Stdlib Require Import ZArith Strings.Ascii Strings.String Strings.Byte.
From Stdlib Require Import Sorting.Permutation.
From Stdlib Require Lqa Qround.
From stdpp Require Import base gmap sets list strings pretty sorting.

Local Open Scope Z_scope.

(** ** Exceptions *)

Module Exn.

(** The only distinction the source makes: the first [except] clause of
    [download_item] catches [asyncio.TimeoutError] and
    [aiohttp.ClientError], the second every other [Exception]. *)
Inductive kind := TimeoutError | ClientError | OtherException.

(** [type_repr] is what [f"{type(e)}"] prints and [str] what [f"{e}"]
    prints. *)
Record t := mk { kind_of : kind; type_repr : string; str : string }.

Definition is_timeout_or_client (e : t) : bool :=
  match kind_of e with
  | TimeoutError | ClientError => true
  | OtherException => false
  end.

Definition ValueError (msg : string) : t :=
  mk OtherException "<class 'ValueError'>" msg.

Definition KeyError (key : string) : t :=
  mk OtherException "<class 'KeyError'>" ("'" +:+ key +:+ "'").

Definition OSError (msg : string) : t :=
  mk OtherException "<class 'OSError'>" msg.

Definition ZeroDivisionError : t :=
  mk OtherException "<class 'ZeroDivisionError'>" "integer modulo by zero".

End Exn.

Abbreviation exn := Exn.t.

Inductive result (A : Type) : Type :=
| Ok (a : A)
| Err (e : exn).
Arguments Ok {A} a.
Arguments Err {A} e.

(** ** Python strings *)

Module PyStr.

Definition chars (s : string) : list ascii := list_ascii_of_string s.
Definition of_chars (l : list ascii) : string := string_of_list_ascii l.

Definition len (s : string) : nat := String.length s.

(** [s[:-n]] for [n > 0]: everything but the last [n] characters. *)
Definition drop_last (n : nat) (s : string) : string :=
  of_chars (take (len s - n) (chars s)).

(** [s[-n:]] for [n > 0]: the last [n] characters, the whole string when
    it is shorter. *)
Definition take_last (n : nat) (s : string) : string :=
  of_chars (drop (len s - n) (chars s)).

(** [list += s] extends the list with the one-character strings of [s]. *)
Definition singletons (s : string) : list string :=
  (λ c, String c EmptyString) <$> chars s.

(** [sub in s] *)
Fixpoint contains (sub s : string) : bool :=
  String.prefix sub s ||
  match s with
  | EmptyString => false
  | String _ s' => contains sub s'
  end.

(** [s.encode('utf-8')] on code points below 256: one byte below 128,
    two bytes above. *)
Definition utf8_char (c : ascii) : list byte :=
  let n := N_of_ascii c in
  if (n <? 128)%N then [byte_of_ascii c]
  else [byte_of_ascii (ascii_of_N (192 + n / 64));
        byte_of_ascii (ascii_of_N (128 + n mod 64))].

Definition utf8 (s : string) : list byte := chars s ≫= utf8_char.

(** [str(n)] for an [int]. *)
Definition of_int (n : Z) : string := pretty n.
Definition of_nat (n : nat) : string := pretty n.

(** The position a slice bound [i] stands for in a string of [n]
    characters: a negative bound counts from the end, and every bound is
    clamped to the string. *)
Definition clamp (n : nat) (i : Z) : nat :=
  Z.to_nat (if i <? 0 then Z.max 0 (i + Z.of_nat n)
            else Z.min i (Z.of_nat n)).

(** [s[a:b]] *)
Definition slice (a b : Z) (s : string) : string :=
  let lo := clamp (len s) a in
  let hi := clamp (len s) b in
  of_chars (take (hi - lo) (drop lo (chars s))).

(** [''.join(parts)] *)
Definition join (parts : list string) : string :=
  foldr String.append EmptyString parts.

End PyStr.

(** ** Parsed documents and the values handed to [write_data] *)

(** What the code observes of a [BeautifulSoup] object: its rendering
    [str(soup)] and the attribute dictionaries of the [<a>] tags that
    [find_all('a')] returns, in document order. *)
Record Soup := mkSoup {
  soup_str : string;
  soup_anchors : list (gmap string string);
}.

Inductive pydata :=
| PNone
| PStr (s : string)
| PSoup (d : Soup).

(** [str(data)] *)
Definition py_str (data : pydata) : string :=
  match data with
  | PNone => "None"
  | PStr s => s
  | PSoup d => soup_str d
  end.

(** [bool(data)]: [None] and the empty string are falsy; a bs4 [Tag]
    defines [__bool__] as constantly true. *)
Definition truthy (data : pydata) : bool :=
  match data with
  | PNone => false
  | PStr s => negb (String.eqb s "")
  | PSoup _ => true
  end.

(** ** The state: the scraper object and the world it acts on *)

Record State := mkState {
  (* attributes of [self] that change *)
  verbose : bool;
  log_buffer : string;
  log_len : Z;
  failed_urls : list string;
  links : gset string;
  (* the world *)
  stdout : list string;            (* lines printed, oldest first *)
  files : gmap string (list byte);  (* path ↦ content *)
  handles : list string;           (* paths of the files currently open *)
  requests : list string;          (* URLs of the GETs issued, oldest first *)
  responses : list (string * result string);
                                   (* GETs completed, with their outcomes *)
  clock : nat;                     (* calls made to [time.strftime] *)
}.

Definition set_verbose (v : bool) (s : State) : State :=
  mkState v (log_buffer s) (log_len s) (failed_urls s) (links s)
          (stdout s) (files s) (handles s) (requests s) (responses s) (clock s).
Definition set_log_buffer (b : string) (s : State) : State :=
  mkState (verbose s) b (log_len s) (failed_urls s) (links s)
          (stdout s) (files s) (handles s) (requests s) (responses s) (clock s).
Definition set_log_len (n : Z) (s : State) : State :=
  mkState (verbose s) (log_buffer s) n (failed_urls s) (links s)
          (stdout s) (files s) (handles s) (requests s) (responses s) (clock s).
Definition set_failed_urls (l : list string) (s : State) : State :=
  mkState (verbose s) (log_buffer s) (log_len s) l (links s)
          (stdout s) (files s) (handles s) (requests s) (responses s) (clock s).
Definition set_links (l : gset string) (s : State) : State :=
  mkState (verbose s) (log_buffer s) (log_len s) (failed_urls s) l
          (stdout s) (files s) (handles s) (requests s) (responses s) (clock s).
Definition set_stdout (o : list string) (s : State) : State :=
  mkState (verbose s) (log_buffer s) (log_len s) (failed_urls s) (links s)
          o (files s) (handles s) (requests s) (responses s) (clock s).
Definition set_files (f : gmap string (list byte)) (s : State) : State :=
  mkState (verbose s) (log_buffer s) (log_len s) (failed_urls s) (links s)
          (stdout s) f (handles s) (requests s) (responses s) (clock s).
Definition set_handles (h : list string) (s : State) : State :=
  mkState (verbose s) (log_buffer s) (log_len s) (failed_urls s) (links s)
          (stdout s) (files s) h (requests s) (responses s) (clock s).
Definition set_requests (r : list string) (s : State) : State :=
  mkState (verbose s) (log_buffer s) (log_len s) (failed_urls s) (links s)
          (stdout s) (files s) (handles s) r (responses s) (clock s).
Definition set_responses (r : list (string * result string)) (s : State) : State :=
  mkState (verbose s) (log_buffer s) (log_len s) (failed_urls s) (links s)
          (stdout s) (files s) (handles s) (requests s) r (clock s).
Definition set_clock (c : nat) (s : State) : State :=
  mkState (verbose s) (log_buffer s) (log_len s) (failed_urls s) (links s)
          (stdout s) (files s) (handles s) (requests s) (responses s) c.

(** The object [__init__] builds, in a world with the given files. *)
Definition init_state (v : bool) (fs : gmap string (list byte)) : State :=
  mkState v "" 0 [] ∅ [] fs [] [] [] 0%nat.

(** ** Coroutines

    An [async def] body is a tree of atomic state accesses; [Yield] marks
    an [await] at which the event loop may run another task. *)

Inductive coro (A : Type) : Type :=
| Ret (a : A)
| Throw (e : exn)
| Upd (f : State → State) (k : coro A)
| Read (k : State → coro A)
| Yield (k : coro A).
Arguments Ret {A} a.
Arguments Throw {A} e.
Arguments Upd {A} f k.
Arguments Read {A} k.
Arguments Yield {A} k.

Fixpoint coro_bind {A B} (g : A → coro B) (m : coro A) : coro B :=
  match m with
  | Ret a => g a
  | Throw e => Throw e
  | Upd f k => Upd f (coro_bind g k)
  | Read k => Read (λ s, coro_bind g (k s))
  | Yield k => Yield (coro_bind g k)
  end.

#[global] Instance coro_mret : MRet coro := @Ret.
#[global] Instance coro_mbind : MBind coro := @coro_bind.

(** [try: m except Exception as e: h e] *)
Fixpoint catch {A} (m : coro A) (h : exn → coro A) : coro A :=
  match m with
  | Ret a => Ret a
  | Throw e => h e
  | Upd f k => Upd f (catch k h)
  | Read k => Read (λ s, catch (k s) h)
  | Yield k => Yield (catch k h)
  end.

(** A synchronous call made from a coroutine. *)
Definition call (f : State → State) : coro unit := Upd f (Ret tt).
Definition await : coro unit := Yield (Ret tt).

(** Run up to the next suspension point: the result is a [Ret], a
    [Throw] or a [Yield]. *)
Fixpoint run_atomic {A} (m : coro A) (s : State) : State * coro A :=
  match m with
  | Upd f k => run_atomic k (f s)
  | Read k => run_atomic (k s) s
  | _ => (s, m)
  end.

(** Run to completion with no other task in the loop. *)
Fixpoint run_alone {A} (m : coro A) (s : State) : State * result A :=
  match m with
  | Ret a => (s, Ok a)
  | Throw e => (s, Err e)
  | Upd f k => run_alone k (f s)
  | Read k => run_alone (k s) s
  | Yield k => run_alone k s
  end.

#[global] Instance result_ret : MRet result := @Ok.
#[global] Instance result_bind : MBind result := λ A B f m,
  match m with Ok a => f a | Err e => Err e end.
#[global] Instance result_fmap : FMap result := λ A B f m,
  match m with Ok a => Ok (f a) | Err e => Err e end.

(** ** Regular expressions, as far as [re.search] is used *)

Module Regex.

Inductive t :=
| Void
| Eps
| Chr (c : ascii)
| Digit                (* \d *)
| Any                  (* any character at all *)
| Cat (r1 r2 : t)
| Alt (r1 r2 : t)
| Star (r : t).

Definition is_digit (c : ascii) : bool :=
  let n := N_of_ascii c in ((48 <=? n) && (n <=? 57))%N.

Fixpoint nullable (r : t) : bool :=
  match r with
  | Void | Chr _ | Digit | Any => false
  | Eps | Star _ => true
  | Cat r1 r2 => nullable r1 && nullable r2
  | Alt r1 r2 => nullable r1 || nullable r2
  end.

Fixpoint deriv (c : ascii) (r : t) : t :=
  match r with
  | Void | Eps => Void
  | Chr c' => if Ascii.eqb c c' then Eps else Void
  | Digit => if is_digit c then Eps else Void
  | Any => Eps
  | Cat r1 r2 =>
      if nullable r1 then Alt (Cat (deriv c r1) r2) (deriv c r2)
      else Cat (deriv c r1) r2
  | Alt r1 r2 => Alt (deriv c r1) (deriv c r2)
  | Star r1 => Cat (deriv c r1) (Star r1)
  end.

Fixpoint accepts (r : t) (l : list ascii) : bool :=
  match l with
  | [] => nullable r
  | c :: l' => accepts (deriv c r) l'
  end.

(** [re.search(r, s)] succeeds when some substring of [s] matches. *)
Definition search (r : t) (s : string) : bool :=
  accepts (Cat (Star Any) (Cat r (Star Any))) (PyStr.chars s).

Fixpoint lit_chars (l : list ascii) : t :=
  match l with
  | [] => Eps
  | c :: l' => Cat (Chr c) (lit_chars l')
  end.
Definition lit (s : string) : t := lit_chars (PyStr.chars s).
Definition plus (r : t) : t := Cat r (Star r).

(** [prefix\d+\.html] *)
Definition id_file (prefix : string) : t :=
  Cat (lit prefix) (Cat (plus Digit) (lit ".html")).

(** The language of a regular expression. *)
Inductive matches : t → list ascii → Prop :=
| m_eps : matches Eps []
| m_chr c : matches (Chr c) [c]
| m_digit c : is_digit c = true → matches Digit [c]
| m_any c : matches Any [c]
| m_cat r1 r2 l1 l2 :
    matches r1 l1 → matches r2 l2 → matches (Cat r1 r2) (l1 ++ l2)
| m_alt_l r1 r2 l : matches r1 l → matches (Alt r1 r2) l
| m_alt_r r1 r2 l : matches r2 l → matches (Alt r1 r2) l
| m_star_nil r : matches (Star r) []
| m_star_cons r l1 l2 :
    matches r l1 → matches (Star r) l2 → matches (Star r) (l1 ++ l2).

End Regex.

(** ** [int(s)] on a string *)

Module PyInt.

(** The white space [int()] strips, among the code points below 256:
    the ASCII white space of C ([\t], [\n], [\v], [\f], [\r] and the
    space), and the two Unicode spaces of that range, NEL and the
    no-break space, which [int()] turns into a space before it parses.
    The separators 28 to 31 are white space for [str.isspace] but not
    for [int()], which raises on them. *)
Definition py_isspace (c : ascii) : bool :=
  let n := N_of_ascii c in
  (((9 <=? n) && (n <=? 13)) || (n =? 32) || (n =? 133) || (n =? 160))%N.

Fixpoint lstrip (l : list ascii) : list ascii :=
  match l with
  | c :: l' => if py_isspace c then lstrip l' else l
  | [] => []
  end.
Definition strip (l : list ascii) : list ascii :=
  reverse (lstrip (reverse (lstrip l))).

Definition digit_value (c : ascii) : Z := Z.of_N (N_of_ascii c) - 48.

(** Decimal digits with single underscores allowed between two digits;
    [after_digit] tells whether the previous character was a digit. *)
Fixpoint digits (acc : Z) (after_digit : bool) (l : list ascii) : option Z :=
  match l with
  | [] => if after_digit then Some acc else None
  | c :: l' =>
      if Regex.is_digit c then digits (10 * acc + digit_value c) true l'
      else if Ascii.eqb c "_" && after_digit then digits acc false l'
      else None
  end.

Definition parse (s : string) : option Z :=
  match strip (PyStr.chars s) with
  | c :: l' =>
      if Ascii.eqb c "+" then digits 0 false l'
      else if Ascii.eqb c "-" then Z.opp <$> digits 0 false l'
      else digits 0 false (c :: l')
  | [] => None
  end.

(** [int(s)]: the value, or [ValueError]. *)
Definition int (s : string) : result Z :=
  match parse s with
  | Some z => Ok z
  | None =>
      Err (Exn.ValueError
             ("invalid literal for int() with base 10: '" +:+ s +:+ "'"))
  end.

End PyInt.

(** ** Range Auditor

    The two static methods read the directory through [os.listdir(path)];
    here they take its result, the [listing], in place of [path]. *)

(** [int(i[:-5][-6:])] *)
Definition file_id (i : string) : result Z :=
  PyInt.int (PyStr.take_last 6 (PyStr.drop_last 5 i)).

(** [[int(i[:-5][-6:]) for i in listing if re.search(fpattern, i)]] *)
Fixpoint downloaded (fpattern : Regex.t) (listing : list string)
  : result (list Z) :=
  match listing with
  | [] => Ok []
  | i :: rest =>
      if Regex.search fpattern i then
        z ← file_id i; ds ← downloaded fpattern rest; mret (z :: ds)
      else downloaded fpattern rest
  end.

(** [range(start, stop)] *)
Definition py_range (start stop : Z) : list Z := seqZ start (stop - start).

Definition check_missing (start stop : Z) (listing : list string)
    (fpattern : Regex.t) : result (list Z) :=
  ds ← downloaded fpattern listing;
  mret (filter (λ j, j ∉ ds) (py_range start stop)).

Definition check_range_downloaded (start stop : Z) (listing : list string)
    (fpattern : Regex.t) : result bool :=
  ds ← downloaded fpattern listing;
  mret (bool_decide (start ∈ ds) || bool_decide (stop ∈ ds)).

(** [r'defendant\d+\.html'] and [r'docket\d+\.html'] *)
Definition defendant_pattern : Regex.t := Regex.id_file "defendant".
Definition docket_pattern : Regex.t := Regex.id_file "docket".

(** ** Link Extractor *)

(** [[a['href'] for a in soup.find_all('a')]]: a tag without the attribute
    raises [KeyError]. *)
Fixpoint hrefs_of (anchors : list (gmap string string)) : result (list string) :=
  match anchors with
  | [] => Ok []
  | a :: rest =>
      match a !! "href" with
      | Some h => hs ← hrefs_of rest; mret (h :: hs)
      | None => Err (Exn.KeyError "href")
      end
  end.

Definition get_defendant_case_links (soup : Soup) : result (gset string) :=
  hrefs ← hrefs_of (soup_anchors soup);
  mret (list_to_set (filter (λ href, PyStr.contains "666666.php" href) hrefs)).

(** ** The file system, as far as the scraper uses it *)

Definition nl : string := String (ascii_of_nat 10) EmptyString.

Fixpoint strip_prefix (p s : string) : option string :=
  match p, s with
  | EmptyString, _ => Some s
  | String a p', String b s' => if Ascii.eqb a b then strip_prefix p' s' else None
  | String _ _, EmptyString => None
  end.

(** [os.listdir(path)] for an existing directory whose [path] ends in a
    slash: the names [n] without a slash for which [path + n] is a file. *)
Definition os_listdir (fs : gmap string (list byte)) (path : string)
  : list string :=
  omap (λ k, n ← strip_prefix path k;
             if PyStr.contains "/" n then None else Some n)
       (elements (dom fs)).

Fixpoint remove_first (x : string) (l : list string) : list string :=
  match l with
  | [] => []
  | y :: l' => if decide (x = y) then l' else y :: remove_first x l'
  end.

(** [open(fname, 'wb')] truncates; closing releases the handle. *)
Definition open_wb (fname : string) (s : State) : State :=
  set_handles (fname :: handles s) (set_files (<[fname := []]> (files s)) s).
Definition write_bytes (fname : string) (b : list byte) (s : State) : State :=
  set_files (<[fname := b]> (files s)) s.
Definition close_file (fname : string) (s : State) : State :=
  set_handles (remove_first fname (handles s)) s.

(** ** The scraper *)

Definition def_url : string := "http://www.opcso.org/dcktmstr/dmdspscn.php?d1scnn=".
Definition sheet_url : string := "http://www.opcso.org/dcktmstr/".

Abbreviation task := (coro unit).

Definition is_ret (m : task) : bool :=
  match m with Ret _ => true | _ => false end.

(** Tasks that [gather] no longer waits for: they are not cancelled, and
    advance one atomic segment at a time in the order the schedule names
    them; what they raise is dropped, and stays with them in the pool. *)
Fixpoint drain (sched : list nat) (pool : list task) (s : State)
  : State * list task :=
  match sched with
  | [] => (s, pool)
  | i :: sched' =>
      match pool !! i with
      | Some (Yield k) =>
          let '(s', m) := run_atomic k s in
          drain sched' (<[i := m]> pool) s'
      | _ => drain sched' pool s
      end
  end.

(** [asyncio.gather] over the tasks, without [return_exceptions]: the tasks of
    the pool advance one atomic segment at a time, in the order the
    schedule names them (a name that is not a suspended task is passed
    over); the first task to raise makes [gather] raise.  Its siblings
    are not cancelled: the coroutine that awaits [gather] is resumed later,
    and until then the siblings go on, for the rest of the schedule.  The
    state returned is the one in which the awaiting coroutine is resumed. *)
Fixpoint gather_run (sched : list nat) (pool : list task) (s : State)
  : State * list task * option exn :=
  match sched with
  | [] => (s, pool, None)
  | i :: sched' =>
      match pool !! i with
      | Some (Yield k) =>
          let '(s', m) := run_atomic k s in
          let pool' := <[i := m]> pool in
          match m with
          | Throw e =>
              let '(s'', pool'') := drain sched' pool' s' in
              (s'', pool'', Some e)
          | _ => gather_run sched' pool' s'
          end
      | _ => gather_run sched' pool s
      end
  end.

(** A coroutine handed to [gather] starts suspended. *)
Definition spawn (ms : list task) : list task := Yield <$> ms.

(** [None]: the schedule ended before the fan-in. *)
Definition gather (sched : list nat) (ms : list task) (s : State)
  : option (State * result unit) :=
  let '(s', pool, r) := gather_run sched (spawn ms) s in
  match r with
  | Some e => Some (s', Err e)
  | None => if forallb is_ret pool then Some (s', Ok tt) else None
  end.

Section Scraper.

(** Configuration: the attributes [__init__] sets and nothing changes. *)
Variables defendant_path docket_path log_file : string.

(** The world. [strftime n] is what the [n]-th call of
    [time.strftime('%c')] returns; [http_get n url] is the outcome of the
    [n]-th GET issued, the text of the response or the exception raised
    inside the [try]; [html_parser] is [BeautifulSoup(_, 'html.parser')];
    [shuffle] is the permutation [random.shuffle] applies;
    [write_fault fname] is the exception, if any, that writing to
    [fname] raises. *)
Variable strftime : nat → string.
Variable http_get : nat → string → result string.
Variable html_parser : string → Soup.
Variable shuffle : list Z → list Z.
Variable write_fault : string → option exn.

Definition now (s : State) : string * State :=
  (strftime (clock s), set_clock (S (clock s)) s).

Definition print (line : string) (s : State) : State :=
  set_stdout (stdout s ++ [line]) s.

Definition write_log (s : State) : State :=
  let old := default [] (files s !! log_file) in
  let s1 :=
    set_files (<[log_file := old ++ PyStr.utf8 (log_buffer s)]> (files s)) s in
  set_log_len 0 (set_log_buffer "" s1).

Definition log (message : string) (s : State) : State :=
  let s1 :=
    if verbose s then
      let '(t, s') := now s in print message (print t s')
    else s in
  let '(t, s2) := now s1 in
  let s3 := set_log_buffer (log_buffer s2 +:+ t) s2 in
  let s4 := set_log_buffer (log_buffer s3 +:+ nl +:+ message +:+ nl) s3 in
  if log_len s4 >? 100000 then write_log s4 else s4.

(** [session.get(url)] through the rate limiter, then
    [response.text(errors='ignore')]: wait for a token, issue the
    request, wait for the response; the outcome is the text or the
    exception raised. *)
Definition session_get (url : string) : coro string :=
  await;;
  Read (λ s,
    Upd (set_requests (requests s ++ [url]))
      (await;;
       let outcome := http_get (length (requests s)) url in
       call (λ s', set_responses (responses s' ++ [(url, outcome)]) s');;
       match outcome with
       | Ok text => Ret text
       | Err e => Throw e
       end)).

Definition download_item (url_root item : string) : coro (option string) :=
  call (log ("downloading " +:+ item));;
  let url := url_root +:+ item in
  catch
    (text ← session_get url; mret (Some text))
    (λ e,
       if Exn.is_timeout_or_client e then
         call (log ("Timeout/ClientError downloading item " +:+ url +:+ ": "
                    +:+ Exn.type_repr e));;
         call (λ s, set_failed_urls (failed_urls s ++ [url]) s);;
         mret None
       else
         call (λ s, set_failed_urls (failed_urls s ++ PyStr.singletons url) s);;
         call (log ("Exception downloading item " +:+ url +:+ ": "
                    +:+ Exn.type_repr e));;
         Throw e).

Definition str_truthy (o : option string) : bool :=
  match o with
  | Some s => truthy (PStr s)
  | None => false
  end.

Definition download_defendant (defendant : Z) : coro (option Soup) :=
  def_data ← download_item def_url (PyStr.of_int defendant);
  if str_truthy def_data then mret (html_parser <$> def_data)
  else mret None.

Definition download_sheet (link : string) : coro (option string) :=
  download_item sheet_url link.

(** [async with aiofiles.open(fname, 'wb') as f: body]: the handle is
    released whether [body] returns or raises. *)
Definition with_open_wb (fname : string) (body : coro unit) : coro unit :=
  await;;
  call (open_wb fname);;
  catch (body;; await;; call (close_file fname))
        (λ e, await;; call (close_file fname);; Throw e).

Definition file_write (fname : string) (b : list byte) : coro unit :=
  await;;
  match write_fault fname with
  | Some e => Throw e
  | None => call (write_bytes fname b)
  end.

Definition write_data (data : pydata) (fname : string) : coro unit :=
  call (log ("Writing " +:+ fname +:+ " of length: "
             +:+ PyStr.of_nat (PyStr.len (py_str data))));;
  with_open_wb fname
    (if truthy data then file_write fname (PyStr.utf8 (py_str data))
     else mret tt).

Definition defendant_fname (defendant : Z) : string :=
  defendant_path +:+ "defendant" +:+ PyStr.of_int defendant +:+ ".html".

Definition docket_fname (link : string) : string :=
  docket_path +:+ "docket" +:+ PyStr.take_last 6 link +:+ ".html".

Definition download_defendant_data (defendant : Z) : task :=
  catch
    (let fname := defendant_fname defendant in
     defendant_data ← download_defendant defendant;
     match defendant_data with
     | Some soup =>
         write_data (PSoup soup) fname;;
         match get_defendant_case_links soup with
         | Ok found => call (λ s, set_links (links s ∪ found) s)
         | Err e => Throw e
         end
     | None => mret tt
     end)
    (λ e,
       call (log ("Exception with defendant " +:+ PyStr.of_int defendant
                  +:+ ": " +:+ Exn.type_repr e));;
       Throw e).

Definition download_sheet_data (link : string) : task :=
  catch
    (let fname := docket_fname link in
     sheet_data ← download_sheet link;
     if str_truthy sheet_data then
       write_data (PStr (default "" sheet_data)) fname
     else mret tt)
    (λ e,
       call (log ("Exception with sheet " +:+ link +:+ ": "
                  +:+ Exn.type_repr e));;
       Throw e).

Definition check_missing_defendants (start stop : Z) (s : State) :=
  check_missing start stop (os_listdir (files s) defendant_path)
                defendant_pattern.
Definition check_missing_sheets (start stop : Z) (s : State) :=
  check_missing start stop (os_listdir (files s) docket_path)
                docket_pattern.
Definition check_defendant_range_downloaded (start stop : Z) (s : State) :=
  check_range_downloaded start stop (os_listdir (files s) defendant_path)
                         defendant_pattern.
Definition check_sheet_range_downloaded (start stop : Z) (s : State) :=
  check_range_downloaded start stop (os_listdir (files s) docket_path)
                         docket_pattern.

(** The two fan-outs run under their own schedules. *)
Definition munch_defendants (defendants : list Z) (sched1 sched2 : list nat)
    (s : State) : option (State * result unit) :=
  let s1 := log "Munching started" s in
  r1 ← gather sched1 (download_defendant_data <$> defendants) s1;
  match r1 with
  | (s2, Err e) => Some (s2, Err e)
  | (s2, Ok _) =>
      r2 ← gather sched2 (download_sheet_data <$> elements (links s2)) s2;
      match r2 with
      | (s3, Err e) => Some (s3, Err e)
      | (s3, Ok _) => Some (log "Munching completed" (set_links ∅ s3), Ok tt)
      end
  end.

Definition munch_missing (start stop : Z) (sched1 sched2 : list nat)
    (s : State) : option (State * result unit) :=
  match check_missing_defendants start stop s with
  | Ok defendants => munch_defendants defendants sched1 sched2 s
  | Err e => Some (s, Err e)
  end.

(** The body of the [try] in [munch]. *)
Definition munch_body (start stop : Z) (sched1 sched2 : list nat)
    (s : State) : option (State * result unit) :=
  match check_defendant_range_downloaded start stop s with
  | Ok true => munch_missing start stop sched1 sched2 s
  | Ok false => munch_defendants (shuffle (py_range start stop)) sched1 sched2 s
  | Err e => Some (s, Err e)
  end.

Definition munch (start stop : Z) (v : bool) (sched1 sched2 : list nat)
    (s : State) : option State :=
  r ← munch_body start stop sched1 sched2 (set_verbose v s);
  match r with
  | (s1, Ok _) => Some (write_log s1)
  | (s1, Err e) =>
      let s2 := log ("Munching cancelled due to exception: " +:+ Exn.str e) s1 in
      Some (write_log (write_log s2))
  end.

(** The list of defendants a run hands to [munch_defendants]. *)
Definition munch_work_list (start stop : Z) (s : State) : result (list Z) :=
  b ← check_defendant_range_downloaded start stop s;
  if b : bool then check_missing_defendants start stop s
  else mret (shuffle (py_range start stop)).

(** *** Terms the statements about logging and fetching use *)

(** The time stamp [log] puts in the buffer: in verbose mode the clock is
    read once more, for the console. *)
Definition stamp (s : State) : string :=
  strftime (if verbose s then S (clock s) else clock s).

(** The text a call of [log] adds to the buffer. *)
Definition entry (message : string) (s : State) : string :=
  stamp s +:+ nl +:+ message +:+ nl.

(** A run of [log] calls, oldest message first. *)
Definition logs (messages : list string) (s : State) : State :=
  foldl (λ s m, log m s) s messages.

(** The state a fetch of [url] is in once its request has been issued
    and answered with [outcome]. *)
Definition fetched (item url : string) (outcome : result string) (s : State)
  : State :=
  let s1 := set_requests (requests s ++ [url]) (log ("downloading " +:+ item) s) in
  set_responses (responses s1 ++ [(url, outcome)]) s1.

End Scraper.

(** ** Reasoning about interleavings

    [seg G m Q s0 s]: running [m] from [s], in an atomic segment that
    began in [s0], every segment of [m] relates the state it starts in to
    the state it ends in by [G] (whatever the other tasks did in
    between), and the result and the last segment satisfy [Q]. *)
Fixpoint seg {A} (G : State → State → Prop) (m : coro A)
    (Q : result A → State → State → Prop) (s0 s : State) : Prop :=
  match m with
  | Ret a => Q (Ok a) s0 s
  | Throw e => Q (Err e) s0 s
  | Upd f k => seg G k Q s0 (f s)
  | Read k => seg G (k s) Q s0 s
  | Yield k => G s0 s ∧ ∀ s1, seg G k Q s1 s1
  end.

(** A task of a pool keeps [G]: whenever it is resumed, its segments do. *)
Definition keeps (G : State → State → Prop) (m : task) : Prop :=
  match m with
  | Yield k => ∀ s1, seg G k (λ _, G) s1 s1
  | _ => True
  end.

(** ** Specifications the claims are checked against *)

(** The name [download_defendant_data] and [download_sheet_data] give the
    file of an ID, relative to the directory. *)
Definition id_fname (prefix : string) (j : Z) : string :=
  prefix +:+ PyStr.of_int j +:+ ".html".

(** The Range Auditor's contract: the missing-list is ascending and holds
    exactly the IDs of the range whose file is not in the directory. *)
Definition missing_exactly (prefix : string) (start stop : Z)
    (listing : list string) (r : result (list Z)) : Prop :=
  ∃ missing, r = Ok missing ∧ StronglySorted Z.lt missing ∧
    ∀ j, j ∈ missing ↔ (start ≤ j < stop ∧ id_fname prefix j ∉ listing).

(** Every file of the directory that matches the pattern is the file of
    the ID read off its name. *)
Definition well_named (prefix : string) (listing : list string) : bool :=
  forallb
    (λ i, negb (Regex.search (Regex.id_file prefix) i) ||
          match file_id i with
          | Ok z => String.eqb i (id_fname prefix z)
          | Err _ => false
          end)
    listing.

(** The URLs of a response trace that ended in a time-out or a client
    error, and whether a trace has a response that ended in another
    exception. *)
Definition recoverable (r : string * result string) : bool :=
  match r.2 with
  | Err e => Exn.is_timeout_or_client e
  | Ok _ => false
  end.
Definition fatal (r : string * result string) : bool :=
  match r.2 with
  | Err e => negb (Exn.is_timeout_or_client e)
  | Ok _ => false
  end.
Definition recoverable_urls (rs : list (string * result string)) : list string :=
  fst <$> filter (λ r, recoverable r = true) rs.

(** What [download_item] adds to [failed_urls] for a response: nothing
    when the GET succeeded, the URL when it timed out or failed in the
    client ([append(url)]), and the characters of the URL, one entry
    each, when it failed otherwise ([+= url]). *)
Definition recorded (r : string * result string) : list string :=
  match r.2 with
  | Ok _ => []
  | Err e =>
      if Exn.is_timeout_or_client e then [r.1] else PyStr.singletons r.1
  end.

(** ** Relations between the states of a run *)

(** No other task changes the file at [p]. *)
Definition frame (p : string) (s s' : State) : Prop :=
  files s' !! p = files s !! p.

(** The GETs issued in between all have a URL in [allowed]. *)
Definition issues (allowed : string → Prop) (s s' : State) : Prop :=
  ∃ new, requests s' = requests s ++ new ∧ Forall allowed new.

(** The responses received in between are recorded, and [failed_urls]
    has grown by what [download_item] writes for each of them, in the
    order they were received. *)
Definition tracks_failures (s s' : State) : Prop :=
  ∃ new, responses s' = responses s ++ new ∧
         failed_urls s' = failed_urls s ++ (new ≫= recorded).

(** With [verbose] off, nothing is printed and [verbose] stays off. *)
Definition quiet (s s' : State) : Prop :=
  verbose s = false → verbose s' = false ∧ stdout s' = stdout s.

(** A docket-sheet link, as [get_defendant_case_links] selects them. *)
Definition case_link (link : string) : Prop :=
  PyStr.contains "666666.php" link = true.

(** The link set holds docket-sheet links only, if it did before. *)
Definition only_case_links (s s' : State) : Prop :=
  (∀ l, l ∈ links s → case_link l) → ∀ l, l ∈ links s' → case_link l.

Definition both (G1 G2 : State → State → Prop) (s s' : State) : Prop :=
  G1 s s' ∧ G2 s s'.

(** The log as written so far: the log file, then the buffer. *)
Definition log_stream (log_file : string) (s : State) : list byte :=
  default [] (files s !! log_file) ++ PyStr.utf8 (log_buffer s).

(** Log entries, each a time stamp and a message, as [log] writes
    them. *)
Definition render (entries : list (string * string)) : string :=
  PyStr.join ((λ e, e.1 +:+ nl +:+ e.2 +:+ nl) <$> entries).

(** The log has grown by whole entries, and nothing of it has been lost
    or rewritten. *)
Definition appends_log (log_file : string) (s s' : State) : Prop :=
  ∃ entries,
    log_stream log_file s'
      = log_stream log_file s ++ PyStr.utf8 (render entries).

(** ** Token bucket *)

Module TokenBucket.

Import QArith Qround.
Local Open Scope Q_scope.

(** Modelled from the spec: the module [rate_limiter] that
    [munch_defendants] takes [RateLimiter] from is not among the sources.
    Section 4.1 of the specification describes a bucket configured with
    [rate] and [max_tokens], replenished on a fixed interval independent
    of the requests ("add rate/N tokens every 1/N time unit, capped at
    max_tokens") and an acquire operation that takes one token when at
    least one is available and suspends the caller otherwise.  Time is a
    rational number of time units since startup; the replenishments
    happen at the instants [k/N], [k = 1, 2, ...]. *)
Record config := mkConfig {
  rate : Q;
  max_tokens : Q;
  ticks_per_unit : positive;
}.

(** Modelled from the spec: "add rate/N tokens every 1/N time unit". *)
Definition refill (c : config) : Q :=
  rate c / inject_Z (Z.pos (ticks_per_unit c)).

(** Modelled from the spec: the addition is "capped at max_tokens". *)
Definition replenish (c : config) (tokens : Q) : Q :=
  if Qle_bool (max_tokens c) (tokens + refill c) then max_tokens c
  else tokens + refill c.

(** The bucket: the tokens it holds and the number of replenishments it
    has had. *)
Record bucket := mkBucket {
  tokens : Q;
  ticks_seen : Z;
}.

(** The number of replenishment instants up to time [t]. *)
Definition tick_of (c : config) (t : Q) : Z :=
  Qfloor (t * inject_Z (Z.pos (ticks_per_unit c))).

(** Modelled from the spec: replenishment "runs on a fixed interval
    independent of request timing", so the bucket a request meets at time
    [t] has had every replenishment up to [t], one after the other. *)
Definition advance (c : config) (b : bucket) (t : Q) : bucket :=
  let k := tick_of c t in
  mkBucket (Nat.iter (Z.to_nat (k - ticks_seen b)) (replenish c) (tokens b))
           (Z.max k (ticks_seen b)).

(** Modelled from the spec: an acquisition "waits until at least one
    token is available" and "atomically decrements the token count".
    [acquire c b t] is the bucket after an acquisition at time [t] and
    whether the token was granted on the spot ([false]: the caller
    suspends). *)
Definition acquire (c : config) (b : bucket) (t : Q) : bucket * bool :=
  let b' := advance c b t in
  if Qle_bool 1 (tokens b') then
    (mkBucket (tokens b' - 1) (ticks_seen b'), true)
  else (b', false).

(** The acquisitions made at the given times, in that order. *)
Fixpoint run (c : config) (b : bucket) (times : list Q) : bucket * list bool :=
  match times with
  | [] => (b, [])
  | t :: times' =>
      let '(b', o) := acquire c b t in
      let '(b'', os) := run c b' times' in
      (b'', o :: os)
  end.

(** The bucket at startup, holding [tokens0] tokens. *)
Definition startup (tokens0 : Q) : bucket := mkBucket tokens0 0.

(** The outcomes of the acquisitions [win], made after the acquisitions
    [pre] since startup. *)
Definition outcomes (c : config) (tokens0 : Q) (pre win : list Q)
  : list bool :=
  drop (length pre) (run c (startup tokens0) (pre ++ win)).2.

(** Tokens granted without suspending. *)
Definition granted (os : list bool) : nat := length (filter (λ b, b = true) os).

(** A bucket in order: between [0] and [max_tokens] tokens. *)
Definition in_order (c : config) (b : bucket) : Prop :=
  0 <= tokens b ∧ tokens b <= max_tokens c.

End TokenBucket.

(** ** [chunk.py] *)

(** The generator [chunk_string] returns, as the list of the chunks it
    yields.  [%] and [//] round towards minus infinity, as [Z.modulo] and
    [Z.div] do; the modulo is evaluated when the function is called, so a
    chunk size of zero raises there. *)
Definition chunk_string (string : string) (chunk_size : Z)
  : result (list String.string) :=
  let str_len := Z.of_nat (PyStr.len string) in
  if chunk_size =? 0 then Err Exn.ZeroDivisionError
  else
    let n_chunks :=
      if str_len mod chunk_size =? 0 then str_len / chunk_size
      else str_len / chunk_size + 1 in
    Ok ((λ i, PyStr.slice (i * chunk_size) ((i + 1) * chunk_size) string)
          <$> py_range 0 n_chunks).

(** *** Terms the statements about file names use *)

(** The value of a run of decimal digits. *)
Definition decimal (acc : Z) (l : list ascii) : Z :=
  foldl (λ a c, 10 * a + PyInt.digit_value c) acc l.

(** The last six decimal digits of a number with at least six. *)
Definition last_six (x : N) : list ascii :=
  (λ k, pretty_N_char ((x `div` 10 ^ k) `mod` 10)%N) <$> [5; 4; 3; 2; 1; 0]%N.

(** A character that cannot start an integer literal. *)
Definition letter (c : ascii) : bool :=
  negb (PyInt.py_isspace c) && negb (Regex.is_digit c)
  && negb (Ascii.eqb c "+") && negb (Ascii.eqb c "-").

(** ** A small world to run the scraper in *)

(** A directory with the files of the given defendants. *)
Definition defendant_files (path : string) (ids : list Z)
  : gmap string (list byte) :=
  list_to_map ((λ j, (path +:+ id_fname "defendant" j, [])) <$> ids).

Module Demo.

Definition strftime (n : nat) : string := "t" +:+ pretty n.

Definition Timeout : exn :=
  Exn.mk Exn.TimeoutError "<class 'asyncio.exceptions.TimeoutError'>" "".
Definition RuntimeError : exn :=
  Exn.mk Exn.OtherException "<class 'RuntimeError'>" "Session is closed".

(** Defendant 100001 times out, defendant 100002 fails with a
    [RuntimeError], every other page holds one docket-sheet link. *)
Definition http_get (n : nat) (url : string) : result string :=
  if String.eqb url (def_url +:+ "100001") then Err Timeout
  else if String.eqb url (def_url +:+ "100002") then Err RuntimeError
  else Ok "<a href='666666.php?&docase=111111'>1</a>".

Definition html_parser (text : string) : Soup :=
  mkSoup text [ {[ "href" := "666666.php?&docase=111111" ]} ].

Definition no_fault (fname : string) : option exn := None.

Definition munch :=
  munch "defendants/" "dockets/" "log.txt" strftime http_get html_parser
        id no_fault.

Definition defendant_task :=
  download_defendant_data "defendants/" "log.txt" strftime http_get
                          html_parser no_fault.

Definition s0 : State := init_state false ∅.

End Demo.

(** * Verification *)

(** ** State projections *)

Ltac log_projection :=
  unfold log, now;
  destruct (verbose _) eqn:?; simpl;
  destruct (log_len _ >? 100000); simpl;
  solve [reflexivity | assumption | congruence].

Section LogFacts.

Variable log_file : string.
Variable strftime : nat → string.

Local Abbreviation log := (log log_file strftime).
Local Abbreviation write_log := (write_log log_file).
Local Abbreviation stamp := (stamp strftime).
Local Abbreviation entry := (entry strftime).
Local Abbreviation logs := (logs log_file strftime).

Lemma app_assoc_str (a b c : string) : (a +:+ b) +:+ c = a +:+ (b +:+ c).
Proof.
  induction a as [|x a IH]; [done|].
  unfold String.append; fold String.append. by rewrite IH.
Qed.

Lemma log_buffer_log message s :
  log_buffer (log message s) =
    if log_len s >? 100000 then "" else log_buffer s +:+ entry message s.
Proof.
  unfold log, entry, stamp, now.
  destruct (verbose s); simpl; destruct (log_len s >? 100000); simpl;
    rewrite ?app_assoc_str; reflexivity.
Qed.

Lemma log_len_log message s :
  log_len (log message s) = if log_len s >? 100000 then 0 else log_len s.
Proof. log_projection. Qed.

Lemma files_log message s :
  files (log message s) =
    if log_len s >? 100000 then
      <[log_file := default [] (files s !! log_file)
                    ++ PyStr.utf8 (log_buffer s +:+ entry message s)]> (files s)
    else files s.
Proof.
  unfold log, entry, stamp, now.
  destruct (verbose s); simpl; destruct (log_len s >? 100000); simpl;
    rewrite ?app_assoc_str; reflexivity.
Qed.

Lemma files_log_other message s p :
  p ≠ log_file → files (log message s) !! p = files s !! p.
Proof.
  intros Hp. rewrite files_log. destruct (log_len s >? 100000); [|done].
  by rewrite lookup_insert_ne.
Qed.

Lemma failed_urls_log message s : failed_urls (log message s) = failed_urls s.
Proof. log_projection. Qed.

Lemma requests_log message s : requests (log message s) = requests s.
Proof. log_projection. Qed.

Lemma responses_log message s : responses (log message s) = responses s.
Proof. log_projection. Qed.

Lemma handles_log message s : handles (log message s) = handles s.
Proof. log_projection. Qed.

Lemma links_log message s : links (log message s) = links s.
Proof. log_projection. Qed.

Lemma verbose_log message s : verbose (log message s) = verbose s.
Proof.
  unfold log, now.
  destruct (verbose s) eqn:Hv; simpl;
    destruct (log_len s >? 100000); simpl; exact Hv.
Qed.

Lemma len_app (a b : string) :
  PyStr.len (a +:+ b) = (PyStr.len a + PyStr.len b)%nat.
Proof.
  unfold PyStr.len. induction a as [|x a IH]; [done|].
  unfold String.append; fold String.append. simpl. by rewrite IH.
Qed.

Lemma logs_unflushed messages s :
  log_len s = 0 →
  log_len (logs messages s) = 0 ∧
  files (logs messages s) = files s ∧
  (PyStr.len (log_buffer s) + sum_list (PyStr.len <$> messages)
   ≤ PyStr.len (log_buffer (logs messages s)))%nat.
Proof.
  revert s. induction messages as [|m ms IH]; intros s Hs; simpl.
  - split_and!; [done|done|simpl; lia].
  - destruct (IH (log m s)) as (H1 & H2 & H3).
    { rewrite log_len_log, Hs. reflexivity. }
    split_and!; [done| |].
    + rewrite H2, files_log, Hs. reflexivity.
    + etrans; [|exact H3].
      rewrite log_buffer_log, Hs. simpl. unfold entry.
      rewrite !len_app. unfold fmap in *. lia.
Qed.

(** C6, as the code has it: [log_len] is initialised to [0], reset to [0]
    by [write_log] and never increased, so the test [log_len > 100000] of
    [log] never succeeds.  Whatever is logged after [__init__], and however
    long the buffer has grown, no call of [log] writes the log file or
    empties the buffer; a buffer of more than 100000 characters stays
    buffered through the next call. *)
Theorem log_threshold_never_reached (v : bool) (fs : gmap string (list byte))
    (messages : list string) (next : string) :
  let s := logs messages (init_state v fs) in
  (sum_list (PyStr.len <$> messages) ≤ PyStr.len (log_buffer s))%nat ∧
  files (log next s) = fs ∧
  log_buffer (log next s) = log_buffer s +:+ entry next s.
Proof.
  intros s. destruct (logs_unflushed messages (init_state v fs) eq_refl)
    as (Hlen & Hfiles & Hbuf). fold s in Hlen, Hfiles, Hbuf.
  split_and!.
  - simpl in Hbuf. lia.
  - rewrite files_log, Hlen. simpl. exact Hfiles.
  - rewrite log_buffer_log, Hlen. reflexivity.
Qed.

(** The buffer is flushed when a run ends: [write_log] appends it to the
    log file and empties it. *)
Lemma write_log_flushes s :
  log_buffer (write_log s) = "" ∧ log_len (write_log s) = 0 ∧
  files (write_log s) !! log_file =
    Some (default [] (files s !! log_file) ++ PyStr.utf8 (log_buffer s)).
Proof. unfold write_log. simpl. by rewrite lookup_insert_eq. Qed.

End LogFacts.

(** ** Fetcher *)

Section Fetcher.

Variable log_file : string.
Variable strftime : nat → string.
Variable http_get : nat → string → result string.

Local Abbreviation log := (log log_file strftime).
Local Abbreviation download_item := (download_item log_file strftime http_get).
Local Abbreviation fetched := (fetched log_file strftime).

(** C1: a fetch attempt returns the response text when the GET succeeds;
    on a time-out or a client error it logs the failure, appends the URL to
    [failed_urls] and returns [None]; on any other exception it logs and
    raises the exception again. *)
Theorem download_item_outcomes (url_root item : string) (s : State) :
  let url := url_root +:+ item in
  let outcome := http_get (length (requests s)) url in
  let s1 := fetched item url outcome s in
  run_alone (download_item url_root item) s =
    match outcome with
    | Ok text => (s1, Ok (Some text))
    | Err e =>
        if Exn.is_timeout_or_client e then
          (set_failed_urls (failed_urls s1 ++ [url])
             (log ("Timeout/ClientError downloading item " +:+ url +:+ ": "
                   +:+ Exn.type_repr e) s1),
           Ok None)
        else
          (log ("Exception downloading item " +:+ url +:+ ": "
                +:+ Exn.type_repr e)
             (set_failed_urls (failed_urls s1 ++ PyStr.singletons url) s1),
           Err e)
    end.
Proof.
  intros url outcome s1. subst s1. unfold fetched, download_item.
  simpl. rewrite requests_log. fold url. fold outcome.
  destruct outcome as [text|e]; simpl; [reflexivity|].
  destruct (Exn.is_timeout_or_client e); simpl;
    rewrite ?failed_urls_log; simpl; rewrite ?failed_urls_log; reflexivity.
Qed.

End Fetcher.

(** ** Interleavings *)

Section Segments.

Context {A : Type}.
Variable G : State → State → Prop.

Lemma seg_mono (m : coro A) (Q Q' : result A → State → State → Prop) s0 s :
  (∀ r s0 s, Q r s0 s → Q' r s0 s) → seg G m Q s0 s → seg G m Q' s0 s.
Proof.
  intros HQ. revert s0 s.
  induction m as [a|e|f k IH|k IH|k IH]; intros s0 s; simpl; auto.
  intros [HG Hk]. split; [done|]. intros s1. apply IH, Hk.
Qed.

Lemma seg_catch (m : coro A) (h : exn → coro A) Q s0 s :
  seg G m (λ r s0 s, match r with
                     | Ok a => Q (Ok a) s0 s
                     | Err e => seg G (h e) Q s0 s
                     end) s0 s →
  seg G (catch m h) Q s0 s.
Proof.
  revert s0 s.
  induction m as [a|e|f k IH|k IH|k IH]; intros s0 s; simpl; auto.
  intros [HG Hk]. split; [done|]. intros s1. apply IH, Hk.
Qed.

(** What one atomic segment leaves behind. *)
Lemma seg_run_atomic (m : coro A) Q s0 s s' m' :
  seg G m Q s0 s → run_atomic m s = (s', m') →
  match m' with
  | Ret a => Q (Ok a) s0 s'
  | Throw e => Q (Err e) s0 s'
  | Yield k => G s0 s' ∧ ∀ s1, seg G k Q s1 s1
  | _ => False
  end.
Proof.
  revert s0 s.
  induction m as [a|e|f k IH|k IH|k IH]; intros s0 s; simpl.
  - intros HQ [= <- <-]. exact HQ.
  - intros HQ [= <- <-]. exact HQ.
  - intros Hk Hrun. exact (IH _ _ Hk Hrun).
  - intros Hk Hrun. exact (IH _ _ _ Hk Hrun).
  - intros HQ [= <- <-]. exact HQ.
Qed.

End Segments.

Lemma seg_bind {A B} G (m : coro A) (g : A → coro B) Q s0 s :
  seg G m (λ r s0 s, match r with
                     | Ok a => seg G (g a) Q s0 s
                     | Err e => Q (Err e) s0 s
                     end) s0 s →
  seg G (m ≫= g) Q s0 s.
Proof.
  revert s0 s. unfold mbind, coro_mbind.
  induction m as [a|e|f k IH|k IH|k IH]; intros s0 s; simpl; auto.
  intros [HG Hk]. split; [done|]. intros s1. apply IH, Hk.
Qed.

Lemma run_atomic_keeps G `{!PreOrder G} (pool : list task) i k s s1 m1 :
  Forall (keeps G) pool → pool !! i = Some (Yield k) →
  run_atomic k s = (s1, m1) →
  G s s1 ∧ Forall (keeps G) (<[i:=m1]> pool).
Proof.
  intros Hpool Hi Hrun.
  assert (Hk : keeps G (Yield k)) by (eapply Forall_lookup_1; eauto).
  simpl in Hk. pose proof (seg_run_atomic G k _ s s s1 m1 (Hk s) Hrun) as Hm.
  destruct m1; try done.
  - split; [done|]. by apply Forall_insert.
  - split; [done|]. by apply Forall_insert.
  - destruct Hm. split; [done|]. by apply Forall_insert.
Qed.

(** The siblings that run on after [gather] has raised keep [G] as
    well. *)
Lemma drain_keeps G `{!PreOrder G} sched pool s s' pool' :
  Forall (keeps G) pool →
  drain sched pool s = (s', pool') →
  G s s' ∧ Forall (keeps G) pool'.
Proof.
  revert pool s. induction sched as [|i sched IH]; intros pool s Hpool; simpl.
  - intros [= <- <-]. done.
  - destruct (pool !! i) as [m|] eqn:Hi; [|by apply IH].
    destruct m as [a|e|f k|k|k]; try by apply IH.
    destruct (run_atomic k s) as [s1 m1] eqn:Hrun.
    destruct (run_atomic_keeps G pool i k s s1 m1 Hpool Hi Hrun)
      as [HG1 Hpool1].
    intros Hrest. destruct (IH _ _ Hpool1 Hrest). split; [by etrans|done].
Qed.

(** Soundness: when every task of the pool keeps [G], a preorder, the
    state [gather] ends in is related by [G] to the state it started in,
    whatever the schedule, and the tasks still keep [G]. *)
Lemma gather_run_keeps G `{!PreOrder G} sched pool s s' pool' r :
  Forall (keeps G) pool →
  gather_run sched pool s = (s', pool', r) →
  G s s' ∧ Forall (keeps G) pool'.
Proof.
  revert pool s. induction sched as [|i sched IH]; intros pool s Hpool; simpl.
  - intros [= <- <- <-]. done.
  - destruct (pool !! i) as [m|] eqn:Hi; [|by apply IH].
    destruct m as [a|e|f k|k|k]; try by apply IH.
    destruct (run_atomic k s) as [s1 m1] eqn:Hrun.
    destruct (run_atomic_keeps G pool i k s s1 m1 Hpool Hi Hrun)
      as [HG1 Hpool1].
    destruct m1 as [a|e|f k1|k1|k1].
    + intros Hrest. destruct (IH _ _ Hpool1 Hrest). split; [by etrans|done].
    + destruct (drain sched _ s1) as [s2 pool2] eqn:Hdrain.
      intros [= <- <- <-].
      destruct (drain_keeps G _ _ _ _ _ Hpool1 Hdrain).
      split; [by etrans|done].
    + intros Hrest. destruct (IH _ _ Hpool1 Hrest). split; [by etrans|done].
    + intros Hrest. destruct (IH _ _ Hpool1 Hrest). split; [by etrans|done].
    + intros Hrest. destruct (IH _ _ Hpool1 Hrest). split; [by etrans|done].
Qed.

Lemma spawn_keeps G (ms : list task) :
  Forall (λ m, ∀ s1, seg G m (λ _, G) s1 s1) ms → Forall (keeps G) (spawn ms).
Proof.
  unfold spawn. rewrite Forall_fmap. intros H.
  eapply Forall_impl; [exact H|]. intros m Hm. exact Hm.
Qed.

Lemma drain_app sched1 sched2 pool s :
  drain (sched1 ++ sched2) pool s =
    let '(s1, pool1) := drain sched1 pool s in drain sched2 pool1 s1.
Proof.
  revert pool s. induction sched1 as [|i sched1 IH]; intros pool s; simpl.
  - done.
  - destruct (pool !! i) as [[a|e|f k|k|k]|]; try apply IH.
    destruct (run_atomic k s) as [s1 m1]. apply IH.
Qed.

Lemma gather_run_app sched1 sched2 pool s :
  gather_run (sched1 ++ sched2) pool s =
    match gather_run sched1 pool s with
    | (s1, pool1, None) => gather_run sched2 pool1 s1
    | (s1, pool1, Some e) =>
        let '(s2, pool2) := drain sched2 pool1 s1 in (s2, pool2, Some e)
    end.
Proof.
  revert pool s. induction sched1 as [|i sched1 IH]; intros pool s; simpl.
  - done.
  - destruct (pool !! i) as [[a|e|f k|k|k]|]; try apply IH.
    destruct (run_atomic k s) as [s1 [a|e|f k1|k1|k1]]; try apply IH.
    rewrite drain_app. destruct (drain sched1 _ s1) as [s2 pool2].
    by destruct (drain sched2 pool2 s2).
Qed.

#[global] Instance frame_preorder p : PreOrder (frame p).
Proof. split; unfold frame; [done|]. intros s1 s2 s3 H1 H2. congruence. Qed.

#[global] Instance issues_preorder allowed : PreOrder (issues allowed).
Proof.
  split.
  - intros s. exists []. by rewrite app_nil_r.
  - intros s1 s2 s3 (n1 & E1 & F1) (n2 & E2 & F2). exists (n1 ++ n2).
    split; [by rewrite E2, E1, app_assoc|]. by apply Forall_app.
Qed.

Lemma recoverable_urls_app rs1 rs2 :
  recoverable_urls (rs1 ++ rs2) = recoverable_urls rs1 ++ recoverable_urls rs2.
Proof. unfold recoverable_urls. by rewrite filter_app, fmap_app. Qed.

Lemma recoverable_urls_singleton u o :
  recoverable_urls [(u, o)] = if recoverable (u, o) then [u] else [].
Proof.
  unfold recoverable_urls. rewrite filter_cons, filter_nil.
  destruct (recoverable (u, o)); case_decide; done.
Qed.

Lemma recorded_recoverable rs :
  Forall (λ r, fatal r = false) rs → rs ≫= recorded = recoverable_urls rs.
Proof.
  induction 1 as [|[u o] rs Hr _ IH]; [done|].
  change ((u, o) :: rs) with ([(u, o)] ++ rs).
  rewrite recoverable_urls_app, recoverable_urls_singleton, <-IH.
  simpl. unfold recorded, recoverable, fatal in *. simpl in *.
  destruct o as [text|e]; [done|].
  destruct (Exn.is_timeout_or_client e); done.
Qed.

#[global] Instance tracks_failures_preorder : PreOrder tracks_failures.
Proof.
  split.
  - intros s. exists []. rewrite !app_nil_r. done.
  - intros s1 s2 s3 (n1 & E1 & F1) (n2 & E2 & F2). exists (n1 ++ n2).
    split; [by rewrite E2, E1, app_assoc|].
    by rewrite F2, F1, bind_app, app_assoc.
Qed.

(** Walks through the segments of a task: [leaf] proves the relation at
    the end of each. *)
Ltac seg_walk leaf :=
  repeat (simpl;
    lazymatch goal with
    | |- seg _ _ _ _ _ =>
        match goal with
        | |- context [match ?x with _ => _ end] => destruct x eqn:?
        end
    | |- _ ∧ _ => split
    | |- ∀ _ : State, _ => intro
    | |- _ => leaf
    end).

Section Tasks.

Variables defendant_path docket_path log_file : string.
Variable strftime : nat → string.
Variable http_get : nat → string → result string.
Variable html_parser : string → Soup.
Variable write_fault : string → option exn.

Local Abbreviation log := (log log_file strftime).
Local Abbreviation download_defendant_data :=
  (download_defendant_data defendant_path log_file strftime http_get
                           html_parser write_fault).
Local Abbreviation download_sheet_data :=
  (download_sheet_data docket_path log_file strftime http_get write_fault).
Local Abbreviation defendant_fname := (defendant_fname defendant_path).
Local Abbreviation docket_fname := (docket_fname docket_path).

Ltac unfold_tasks :=
  unfold download_defendant_data, download_sheet_data, download_defendant,
    download_sheet, download_item, session_get, write_data, with_open_wb,
    file_write, call, await.

Ltac frame_leaf :=
  unfold frame, open_wb, write_bytes, close_file; simpl;
  rewrite ?files_log_other by done; simpl;
  rewrite ?files_log_other by done; simpl;
  rewrite ?lookup_insert_ne by done; done.

Lemma defendant_task_frame p d :
  p ≠ log_file → p ≠ defendant_fname d →
  ∀ s1, seg (frame p) (download_defendant_data d) (λ _, frame p) s1 s1.
Proof. intros Hlog Hp s1. unfold_tasks. seg_walk frame_leaf. Qed.

Ltac issues_leaf :=
  unfold issues, open_wb, write_bytes, close_file; simpl;
  rewrite ?requests_log; simpl; rewrite ?requests_log; simpl;
  first [ by (exists []; rewrite app_nil_r)
        | by (eexists [_]; split; [reflexivity|]; apply Forall_singleton) ].

Lemma defendant_task_issues (allowed : string → Prop) d :
  allowed (def_url +:+ PyStr.of_int d) →
  ∀ s1, seg (issues allowed) (download_defendant_data d)
            (λ _, issues allowed) s1 s1.
Proof. intros Hd s1. unfold_tasks. seg_walk issues_leaf. Qed.

Lemma sheet_task_issues (allowed : string → Prop) link :
  allowed (sheet_url +:+ link) →
  ∀ s1, seg (issues allowed) (download_sheet_data link)
            (λ _, issues allowed) s1 s1.
Proof. intros Hd s1. unfold_tasks. seg_walk issues_leaf. Qed.

Ltac failures_leaf :=
  unfold tracks_failures, open_wb, write_bytes, close_file; simpl;
  rewrite ?responses_log, ?failed_urls_log; simpl;
  rewrite ?responses_log, ?failed_urls_log; simpl;
  rewrite ?responses_log, ?failed_urls_log; simpl;
  first [ by (exists []; rewrite !app_nil_r)
        | eexists [_]; split; [reflexivity|];
          unfold recorded; simpl;
          repeat match goal with
                 | H : Exn.is_timeout_or_client _ = _ |- _ => rewrite H
                 end;
          simpl; rewrite ?app_nil_r; reflexivity ].

Lemma defendant_task_tracks_failures d s1 :
  seg tracks_failures (download_defendant_data d)
      (λ _, tracks_failures) s1 s1.
Proof. unfold_tasks. seg_walk failures_leaf. Qed.

Lemma sheet_task_tracks_failures link s1 :
  seg tracks_failures (download_sheet_data link)
      (λ _, tracks_failures) s1 s1.
Proof. unfold_tasks. seg_walk failures_leaf. Qed.

End Tasks.

(** ** Regular expressions: the matcher accepts the language *)

Module RegexFacts.
Import Regex.

Lemma matches_nil_nullable r l : matches r l → l = [] → nullable r = true.
Proof.
  induction 1 as [| | | |r1 r2 l1 l2 _ IH1 _ IH2| | | |]; intros Hl;
    simpl; try done.
  - apply app_eq_nil in Hl as [-> ->]. by rewrite IH1, IH2.
  - by rewrite IHmatches.
  - rewrite IHmatches by done. apply orb_true_r.
Qed.

Lemma matches_deriv r l :
  matches r l → ∀ c l', l = c :: l' → matches (deriv c r) l'.
Proof.
  induction 1 as [|c0|c0 Hc|c0|r1 r2 l1 l2 H1 IH1 H2 IH2|r1 r2 l H IH
                  |r1 r2 l H IH| |r1 l1 l2 H1 IH1 H2 IH2];
    intros c l' Hl; simpl.
  - done.
  - injection Hl as <- <-. rewrite Ascii.eqb_refl. constructor.
  - injection Hl as <- <-. rewrite Hc. constructor.
  - injection Hl as <- <-. constructor.
  - destruct l1 as [|c1 l1].
    + simpl in Hl. subst l2.
      rewrite (matches_nil_nullable r1 [] H1 eq_refl).
      apply m_alt_r. by apply IH2.
    + injection Hl as -> <-.
      assert (matches (Cat (deriv c r1) r2) (l1 ++ l2)).
      { constructor; [by apply IH1|done]. }
      destruct (nullable r1); [by apply m_alt_l|done].
  - apply m_alt_l. by apply IH.
  - apply m_alt_r. by apply IH.
  - done.
  - destruct l1 as [|c1 l1].
    + simpl in Hl. by apply IH2.
    + injection Hl as -> <-. constructor; [by apply IH1|done].
Qed.

Lemma matches_accepts r l : matches r l → accepts r l = true.
Proof.
  revert r. induction l as [|c l IH]; intros r H; simpl.
  - by eapply matches_nil_nullable.
  - apply IH. by eapply matches_deriv.
Qed.

Lemma matches_lit_chars l : matches (lit_chars l) l.
Proof.
  induction l as [|c l IH]; simpl; [constructor|].
  change (c :: l) with ([c] ++ l). constructor; [constructor|done].
Qed.

Lemma matches_star_any l : matches (Star Any) l.
Proof.
  induction l as [|c l IH]; [constructor|].
  change (c :: l) with ([c] ++ l). constructor; [constructor|done].
Qed.

Lemma matches_star_digit l :
  Forall (λ c, is_digit c = true) l → matches (Star Digit) l.
Proof.
  induction 1 as [|c l Hc _ IH]; [constructor|].
  change (c :: l) with ([c] ++ l). constructor; [by constructor|done].
Qed.

Lemma matches_plus_digit l :
  l ≠ [] → Forall (λ c, is_digit c = true) l → matches (plus Digit) l.
Proof.
  destruct l as [|c l]; [done|]. intros _ [Hc Hl]%Forall_cons.
  change (c :: l) with ([c] ++ l).
  constructor; [by constructor|by apply matches_star_digit].
Qed.

Lemma chars_app (a b : string) :
  PyStr.chars (a +:+ b) = PyStr.chars a ++ PyStr.chars b.
Proof.
  unfold PyStr.chars. induction a as [|x a IH]; [done|].
  unfold String.append; fold String.append. simpl. by rewrite IH.
Qed.

(** A name that contains [prefix], then digits, then [.html] is found by
    [re.search]. *)
Lemma search_id_file prefix pre ds post :
  PyStr.chars ds ≠ [] →
  Forall (λ c, is_digit c = true) (PyStr.chars ds) →
  search (id_file prefix) (pre +:+ prefix +:+ ds +:+ ".html" +:+ post) = true.
Proof.
  intros Hne Hds. unfold search. apply matches_accepts.
  assert (PyStr.chars (pre +:+ prefix +:+ ds +:+ ".html" +:+ post) =
          PyStr.chars pre ++
          (PyStr.chars prefix ++ PyStr.chars ds ++ PyStr.chars ".html") ++
          PyStr.chars post) as ->.
  { rewrite !chars_app, <-!app_assoc. reflexivity. }
  constructor; [apply matches_star_any|].
  constructor; [|apply matches_star_any].
  unfold id_file. constructor; [apply matches_lit_chars|].
  constructor; [by apply matches_plus_digit|apply matches_lit_chars].
Qed.

End RegexFacts.

(** ** Decimal numerals *)

Lemma pretty_N_char_digit x : Regex.is_digit (pretty_N_char x) = true.
Proof.
  unfold pretty_N_char. repeat case_match; reflexivity.
Qed.

Lemma pretty_N_go_digits x s :
  ∃ ds, pretty_N_go x s = ds +:+ s ∧
        Forall (λ c, Regex.is_digit c = true) (PyStr.chars ds) ∧
        ((0 < x)%N → ds ≠ "").
Proof.
  revert s. induction (N.lt_wf_0 x) as [x _ IH]; intros s.
  destruct (decide (x = 0%N)) as [->|Hx].
  - exists "". rewrite pretty_N_go_0. split_and!; [done|constructor|lia].
  - rewrite pretty_N_go_step by lia.
    destruct (IH (x `div` 10)%N) with (s := String (pretty_N_char (x `mod` 10)) s)
      as (ds & -> & Hds & _).
    { apply N.div_lt; lia. }
    exists (ds +:+ String (pretty_N_char (x `mod` 10)) "").
    split_and!.
    + by rewrite app_assoc_str.
    + rewrite RegexFacts.chars_app. apply Forall_app. split; [done|].
      apply Forall_singleton, pretty_N_char_digit.
    + intros _. destruct ds; done.
Qed.

Lemma of_int_digits j :
  0 ≤ j →
  PyStr.chars (PyStr.of_int j) ≠ [] ∧
  Forall (λ c, Regex.is_digit c = true) (PyStr.chars (PyStr.of_int j)).
Proof.
  intros Hj. unfold PyStr.of_int, pretty, pretty_Z.
  destruct j as [|p|p]; [|clear Hj|lia].
  - split; [done|]. by apply Forall_singleton.
  - unfold pretty, pretty_positive, pretty, pretty_N.
    case_decide; [done|].
    destruct (pretty_N_go_digits (N.pos p) "") as (ds & -> & Hds & Hne).
    assert (ds +:+ "" = ds) as ->.
    { clear. induction ds as [|x ds IH]; [done|].
      unfold String.append; fold String.append. by rewrite IH. }
    split; [|done]. destruct ds; [by destruct Hne|done].
Qed.

(** ** Range Auditor *)

Lemma chars_inj (a b : string) : PyStr.chars a = PyStr.chars b → a = b.
Proof.
  unfold PyStr.chars. intros H.
  rewrite <-(string_of_list_ascii_of_string a),
          <-(string_of_list_ascii_of_string b). by rewrite H.
Qed.

Lemma app_inj_r (a b c : string) : a +:+ c = b +:+ c → a = b.
Proof.
  intros H. apply chars_inj.
  apply (f_equal PyStr.chars) in H. rewrite !RegexFacts.chars_app in H.
  by apply app_inv_tail in H.
Qed.

Lemma id_fname_inj prefix j k : id_fname prefix j = id_fname prefix k → j = k.
Proof.
  unfold id_fname, PyStr.of_int. intros H.
  apply String.app_inj, app_inj_r in H. by apply pretty_Z_inj in H.
Qed.

Lemma id_fname_search prefix j :
  0 ≤ j → Regex.search (Regex.id_file prefix) (id_fname prefix j) = true.
Proof.
  intros Hj. destruct (of_int_digits j Hj) as [Hne Hds].
  pose proof (RegexFacts.search_id_file prefix "" (PyStr.of_int j) "" Hne Hds)
    as H.
  unfold id_fname. exact H.
Qed.

Lemma downloaded_elem fpattern listing ds :
  downloaded fpattern listing = Ok ds →
  ∀ z, z ∈ ds ↔
       ∃ i, i ∈ listing ∧ Regex.search fpattern i = true ∧ file_id i = Ok z.
Proof.
  revert ds. induction listing as [|i rest IH]; intros ds; simpl.
  - intros [= <-] z. split; [by intros ?%elem_of_nil|].
    by intros (i & ?%elem_of_nil & _).
  - destruct (Regex.search fpattern i) eqn:Hs.
    + destruct (file_id i) as [z0|e] eqn:Hi; simpl; [|done].
      destruct (downloaded fpattern rest) as [ds0|e]; simpl; [|done].
      intros [= <-] z. rewrite elem_of_cons, (IH ds0 eq_refl). split.
      * intros [->|(i' & ? & ? & ?)].
        -- exists i. by rewrite elem_of_cons; auto.
        -- exists i'. rewrite elem_of_cons; auto.
      * intros (i' & [->|?]%elem_of_cons & ? & ?); [left; congruence|].
        right. by exists i'.
    + intros Hds z. rewrite (IH ds Hds). split.
      * intros (i' & ? & ? & ?). exists i'. rewrite elem_of_cons; auto.
      * intros (i' & [->|?]%elem_of_cons & ? & ?); [congruence|].
        by exists i'.
Qed.

Lemma downloaded_total fpattern listing :
  (∀ i, i ∈ listing → Regex.search fpattern i = true → ∃ z, file_id i = Ok z) →
  ∃ ds, downloaded fpattern listing = Ok ds.
Proof.
  induction listing as [|i rest IH]; intros H; simpl; [by eexists|].
  destruct IH as [ds Hds].
  { intros i' ?. apply H. by right. }
  destruct (Regex.search fpattern i) eqn:Hs; [|by eexists].
  destruct (H i) as [z Hz]; [by left|done|].
  rewrite Hz, Hds. simpl. by eexists.
Qed.

(** A file that matches the pattern and whose six characters do not read
    as an integer makes the listing comprehension raise [ValueError]. *)
Lemma downloaded_raises fpattern listing i :
  i ∈ listing → Regex.search fpattern i = true → PyInt.parse
    (PyStr.take_last 6 (PyStr.drop_last 5 i)) = None →
  ∃ msg, downloaded fpattern listing = Err (Exn.ValueError msg).
Proof.
  induction listing as [|i0 rest IH]; intros Hi Hs Hp; [by apply elem_of_nil in Hi|].
  simpl. destruct (Regex.search fpattern i0) eqn:Hs0.
  - unfold file_id, PyInt.int.
    destruct (PyInt.parse (PyStr.take_last 6 (PyStr.drop_last 5 i0))) as [z|] eqn:Hp0;
      simpl; [|by eexists].
    apply elem_of_cons in Hi as [->|Hi]; [congruence|].
    destruct (IH Hi Hs Hp) as [msg ->]. simpl. by eexists.
  - apply elem_of_cons in Hi as [->|Hi]; [congruence|]. by apply IH.
Qed.

(** Files that do not match the pattern are passed over. *)
Lemma downloaded_filter fpattern listing :
  downloaded fpattern listing =
  downloaded fpattern (filter (λ i, Regex.search fpattern i = true) listing).
Proof.
  induction listing as [|i rest IH]; [done|].
  rewrite filter_cons. simpl. case_decide as Hs.
  - simpl. rewrite Hs, IH. done.
  - apply not_true_is_false in Hs. by rewrite Hs.
Qed.

Lemma well_named_spec prefix listing :
  well_named prefix listing = true ↔
  ∀ i, i ∈ listing → Regex.search (Regex.id_file prefix) i = true →
       ∃ z, file_id i = Ok z ∧ i = id_fname prefix z.
Proof.
  unfold well_named. induction listing as [|i rest IH]; simpl.
  - split; [|done]. by intros _ i ?%elem_of_nil.
  - rewrite andb_true_iff, IH. split.
    + intros [Hi Hrest] i' [->|Hi']%elem_of_cons Hs; [|by apply Hrest].
      rewrite Hs in Hi. simpl in Hi.
      destruct (file_id i) as [z|e]; [|done].
      apply String.eqb_eq in Hi. by exists z.
    + intros H. split; [|intros i' ?; apply H; by right].
      destruct (Regex.search (Regex.id_file prefix) i) eqn:Hs; [|done].
      destruct (H i) as (z & -> & Hz); [by left|done|]. simpl.
      by apply String.eqb_eq.
Qed.

Lemma StronglySorted_filter {A} (R : relation A) (P : A → Prop)
    `{!∀ x, Decision (P x)} l :
  StronglySorted R l → StronglySorted R (filter P l).
Proof.
  induction 1 as [|x l Hl IH Hx]; [constructor|].
  rewrite filter_cons. case_decide; [|done].
  constructor; [done|]. rewrite Forall_forall in Hx |- *.
  intros y [_ Hy]%list_elem_of_filter. by apply Hx.
Qed.

Lemma StronglySorted_seqZ m n : StronglySorted Z.lt (seqZ m n).
Proof.
  destruct (decide (n ≤ 0)) as [Hn|Hn]; [rewrite seqZ_nil by done; constructor|].
  rewrite <-(Z2Nat.id n) by lia. generalize (Z.to_nat n). clear n Hn.
  intros k. revert m. induction k as [|k IH]; intros m.
  - rewrite seqZ_nil by done. constructor.
  - rewrite seqZ_cons by lia. constructor.
    + replace (Z.pred (Z.of_nat (S k))) with (Z.of_nat k) by lia. apply IH.
    + apply Forall_forall. intros j Hj%elem_of_seqZ. lia.
Qed.

(** The missing-list of a well-named directory. *)
Lemma check_missing_well_named (prefix : string) (start stop : Z)
    (listing : list string) :
  0 ≤ start →
  well_named prefix listing = true →
  missing_exactly prefix start stop listing
    (check_missing start stop listing (Regex.id_file prefix)).
Proof.
  intros Hstart Hwn. rewrite well_named_spec in Hwn.
  destruct (downloaded_total (Regex.id_file prefix) listing) as [ds Hds].
  { intros i Hi Hs. destruct (Hwn i Hi Hs) as (z & Hz & _). by exists z. }
  pose proof (downloaded_elem _ _ _ Hds) as Hin.
  unfold missing_exactly, check_missing. rewrite Hds. simpl.
  eexists. split; [reflexivity|]. split.
  { apply StronglySorted_filter, StronglySorted_seqZ. }
  intros j. rewrite list_elem_of_filter. unfold py_range.
  rewrite elem_of_seqZ. split.
  - intros [Hj Hrange]. split; [lia|]. intros Hfile. apply Hj, Hin.
    assert (Hs : Regex.search (Regex.id_file prefix) (id_fname prefix j) = true)
      by (apply id_fname_search; lia).
    destruct (Hwn _ Hfile Hs) as (z & Hz & Heq).
    apply id_fname_inj in Heq as <-. eauto.
  - intros [Hrange Hfile]. split; [|lia].
    intros (i & Hi & Hs & Hz)%Hin. apply Hfile.
    destruct (Hwn _ Hi Hs) as (z & Hz' & ->). congruence.
Qed.

(** C3, as the code has it.  The ID of a file is read off the six
    characters before its extension, so the contract holds for
    directories in which every file matching the pattern is the
    correctly-named file of the ID read off it (which makes the IDs six
    digits long): then, for a range that starts at a non-negative ID,
    the missing-list is ascending and holds exactly the IDs of the range
    whose file is absent. *)
Theorem check_missing_exact (prefix : string) (start stop : Z)
    (listing : list string) :
  0 ≤ start →
  well_named prefix listing = true →
  missing_exactly prefix start stop listing
    (check_missing start stop listing (Regex.id_file prefix)).
Proof. apply check_missing_well_named. Qed.

Lemma downloaded_well_named prefix listing :
  well_named prefix listing = true →
  ∃ ds, downloaded (Regex.id_file prefix) listing = Ok ds ∧
        ∀ j, 0 ≤ j → j ∈ ds ↔ id_fname prefix j ∈ listing.
Proof.
  intros Hwn. rewrite well_named_spec in Hwn.
  destruct (downloaded_total (Regex.id_file prefix) listing) as [ds Hds].
  { intros i Hi Hs. destruct (Hwn i Hi Hs) as (z & Hz & _). by exists z. }
  exists ds. split; [done|]. intros j Hj.
  rewrite (downloaded_elem _ _ _ Hds). split.
  - intros (i & Hi & Hs & Hz). destruct (Hwn _ Hi Hs) as (z & Hz' & ->).
    congruence.
  - intros Hfile. pose proof (id_fname_search prefix j Hj) as Hs.
    destruct (Hwn _ Hfile Hs) as (z & Hz & Heq).
    apply id_fname_inj in Heq as <-. eauto.
Qed.

Lemma check_range_downloaded_well_named prefix start stop listing :
  0 ≤ start → 0 ≤ stop → well_named prefix listing = true →
  check_range_downloaded start stop listing (Regex.id_file prefix) =
    Ok (bool_decide (id_fname prefix start ∈ listing ∨
                     id_fname prefix stop ∈ listing)).
Proof.
  intros H1 H2 (ds & Hds & Hin)%downloaded_well_named.
  unfold check_range_downloaded. rewrite Hds. simpl. f_equal.
  rewrite <-bool_decide_or. apply bool_decide_ext.
  by rewrite !Hin.
Qed.

(** C10: a directory that holds [defendant123.html] makes both auditor
    functions raise [ValueError] (the six characters read are [ant123]);
    so does any file that matches the pattern and whose six characters are
    not an integer literal; the files that do not match the pattern are
    the only ones passed over. *)
Theorem short_id_raises_ValueError (start stop : Z) :
  let msg := "invalid literal for int() with base 10: 'ant123'" in
  check_missing start stop ["defendant123.html"] defendant_pattern
    = Err (Exn.ValueError msg) ∧
  check_range_downloaded start stop ["defendant123.html"] defendant_pattern
    = Err (Exn.ValueError msg) ∧
  (∀ fpattern listing i,
     i ∈ listing → Regex.search fpattern i = true →
     PyInt.parse (PyStr.take_last 6 (PyStr.drop_last 5 i)) = None →
     ∃ msg',
       check_missing start stop listing fpattern = Err (Exn.ValueError msg') ∧
       check_range_downloaded start stop listing fpattern
         = Err (Exn.ValueError msg')) ∧
  (∀ fpattern listing,
     let matching := filter (λ i, Regex.search fpattern i = true) listing in
     check_missing start stop listing fpattern
       = check_missing start stop matching fpattern ∧
     check_range_downloaded start stop listing fpattern
       = check_range_downloaded start stop matching fpattern).
Proof.
  split_and!.
  - reflexivity.
  - reflexivity.
  - intros fpattern listing i Hi Hs Hp.
    destruct (downloaded_raises fpattern listing i Hi Hs Hp) as [msg' Hd].
    exists msg'. unfold check_missing, check_range_downloaded.
    by rewrite Hd.
  - intros fpattern listing matching.
    unfold check_missing, check_range_downloaded, matching.
    by rewrite <-downloaded_filter.
Qed.

Lemma short_id_raises_ValueError_witness :
  ∃ msg',
    check_missing 100 110 ["notes.txt"; "defendant123.html"] defendant_pattern
      = Err (Exn.ValueError msg') ∧
    check_range_downloaded 100 110 ["notes.txt"; "defendant123.html"]
                           defendant_pattern
      = Err (Exn.ValueError msg').
Proof.
  apply (proj1 (proj2 (proj2 (short_id_raises_ValueError 100 110)))
           defendant_pattern ["notes.txt"; "defendant123.html"]
           "defendant123.html").
  - apply (bool_decide_unpack _). vm_compute. exact I.
  - reflexivity.
  - reflexivity.
Defined.

Lemma check_missing_exact_witness :
  missing_exactly "defendant" 100000 100010
    ["defendant100000.html"; "notes.txt"; "defendant100004.html";
     "defendant100007.html"; "docket123456.html"]
    (check_missing 100000 100010
       ["defendant100000.html"; "notes.txt"; "defendant100004.html";
        "defendant100007.html"; "docket123456.html"]
       (Regex.id_file "defendant")).
Proof.
  apply check_missing_exact; [lia|vm_compute; reflexivity].
Defined.

(** The contract of C3 fails for an ID of seven digits: the file of
    1234567 is in the directory and 1234567 is reported missing (its file
    is read as the file of 234567). *)
Lemma check_missing_seven_digits :
  ¬ missing_exactly "defendant" 1234567 1234568 ["defendant1234567.html"]
      (check_missing 1234567 1234568 ["defendant1234567.html"]
                     defendant_pattern).
Proof.
  intros (missing & Hm & _ & Hin).
  vm_compute in Hm. injection Hm as <-.
  destruct (Hin 1234567) as [H _].
  destruct H as [_ H]; [by left|]. apply H.
  apply (bool_decide_unpack _). vm_compute. exact I.
Qed.

(** ** Resumption *)

Section Resumption.

Variable defendant_path : string.
Variable shuffle : list Z → list Z.
Hypothesis shuffle_perm : ∀ l, shuffle l ≡ₚ l.

Local Abbreviation munch_work_list := (munch_work_list defendant_path shuffle).

(** C4, as the code has it.  [munch] resumes only when the file of one of
    the two boundary IDs, [start] or [stop], is in the directory.  For
    non-negative boundaries and a directory whose matching files are the
    correctly-named files of six-digit IDs: when a boundary file is
    present, the work list is exactly the missing IDs of the range, in
    ascending order; when neither is, it is a permutation of the full
    range. *)
Theorem resumed_work_list (start stop : Z) (s : State) :
  let listing := os_listdir (files s) defendant_path in
  0 ≤ start → 0 ≤ stop →
  well_named "defendant" listing = true →
  ((id_fname "defendant" start ∈ listing ∨ id_fname "defendant" stop ∈ listing) →
   missing_exactly "defendant" start stop listing
     (munch_work_list start stop s)) ∧
  (¬ (id_fname "defendant" start ∈ listing ∨ id_fname "defendant" stop ∈ listing) →
   ∃ work, munch_work_list start stop s = Ok work ∧
           work ≡ₚ py_range start stop).
Proof.
  intros listing Hstart Hstop Hwn.
  unfold munch_work_list, check_defendant_range_downloaded.
  fold listing. unfold defendant_pattern.
  rewrite check_range_downloaded_well_named by done. simpl.
  split; intros Hb.
  - rewrite bool_decide_eq_true_2 by done.
    unfold check_missing_defendants. fold listing.
    by apply check_missing_well_named.
  - rewrite bool_decide_eq_false_2 by done. simpl.
    eexists. split; [reflexivity|]. apply shuffle_perm.
Qed.

End Resumption.

Lemma resumed_work_list_witness :
  missing_exactly "defendant" 100000 100010
    (os_listdir (defendant_files "defendants/" [100000; 100004; 100007])
                "defendants/")
    (munch_work_list "defendants/" id 100000 100010
       (init_state false
          (defendant_files "defendants/" [100000; 100004; 100007]))).
Proof.
  refine (proj1 (resumed_work_list "defendants/" id _ 100000 100010
            (init_state false
               (defendant_files "defendants/" [100000; 100004; 100007]))
            _ _ _) _).
  - intros l. reflexivity.
  - lia.
  - lia.
  - vm_compute. reflexivity.
  - left. apply (bool_decide_unpack _). vm_compute. exact I.
Defined.

(** The resumed example of C4 over six-digit IDs: ten IDs, three files on
    disk, the file of [start] among them; the work list is the seven
    others. *)
Example resumed_work_list_seven :
  munch_work_list "defendants/" reverse 100000 100010
    (init_state false (defendant_files "defendants/" [100000; 100004; 100007]))
  = Ok [100001; 100002; 100003; 100005; 100006; 100008; 100009].
Proof. vm_compute. reflexivity. Qed.

(** The claim of C4 fails twice.  On its own example, IDs 100 to 109
    with three files on disk, the directory scan raises [ValueError] and
    there is no work list at all.  On six-digit IDs, when the three files
    on disk are not those of a boundary ID, the work list is the full
    range of ten. *)
Lemma restart_not_missing_only :
  munch_work_list "defendants/" reverse 100 110
    (init_state false (defendant_files "defendants/" [100; 101; 102]))
  = Err (Exn.ValueError "invalid literal for int() with base 10: 'ant101'") ∧
  ¬ missing_exactly "defendant" 100 110
      (os_listdir (defendant_files "defendants/" [100; 101; 102]) "defendants/")
      (munch_work_list "defendants/" reverse 100 110
         (init_state false (defendant_files "defendants/" [100; 101; 102]))) ∧
  munch_work_list "defendants/" reverse 100000 100010
    (init_state false (defendant_files "defendants/" [100003; 100004; 100005]))
  = Ok [100009; 100008; 100007; 100006; 100005; 100004; 100003; 100002;
        100001; 100000] ∧
  ¬ missing_exactly "defendant" 100000 100010
      (os_listdir (defendant_files "defendants/" [100003; 100004; 100005])
                  "defendants/")
      (munch_work_list "defendants/" reverse 100000 100010
         (init_state false
            (defendant_files "defendants/" [100003; 100004; 100005]))).
Proof.
  split_and!.
  - vm_compute. reflexivity.
  - intros (missing & Hm & _). vm_compute in Hm. discriminate.
  - vm_compute. reflexivity.
  - intros (missing & Hm & _ & Hin). vm_compute in Hm. injection Hm as <-.
    destruct (Hin 100004) as [H _].
    destruct H as [_ H]; [apply (bool_decide_unpack _); vm_compute; exact I|].
    apply H. apply (bool_decide_unpack _). vm_compute. exact I.
Qed.

(** ** Link Extractor *)

(** C7 at a document with an anchor that has no [href] attribute, such as
    [<a name="top">] followed by a docket-sheet link: the comprehension
    [a['href']] raises [KeyError] and no set is returned. *)
Theorem case_links_anchor_without_href :
  get_defendant_case_links
    (mkSoup "<a name='top'></a><a href='666666.php?&docase=111111'>1</a>"
            [ {[ "name" := "top" ]};
              {[ "href" := "666666.php?&docase=111111" ]} ])
  = Err (Exn.KeyError "href").
Proof. reflexivity. Qed.

Lemma hrefs_of_all anchors hrefs :
  Forall2 (λ (a : gmap string string) h, a !! "href" = Some h) anchors hrefs →
  hrefs_of anchors = Ok hrefs.
Proof.
  induction 1 as [|a h anchors hrefs Ha _ IH]; simpl; [done|].
  by rewrite Ha, IH.
Qed.

(** When every anchor has an [href], the links returned are exactly the
    [href] values that contain [666666.php], as a set. *)
Lemma case_links_all_href soup hrefs :
  Forall2 (λ (a : gmap string string) h, a !! "href" = Some h)
          (soup_anchors soup) hrefs →
  ∃ found, get_defendant_case_links soup = Ok found ∧
    ∀ h, h ∈ found ↔ h ∈ hrefs ∧ PyStr.contains "666666.php" h = true.
Proof.
  intros H. unfold get_defendant_case_links.
  rewrite (hrefs_of_all _ _ H). simpl. eexists. split; [reflexivity|].
  intros h. rewrite elem_of_list_to_set, list_elem_of_filter.
  rewrite Is_true_true. tauto.
Qed.

(** The example of the specification: anchors [a], [b], [c], of which
    [b] is not a docket-sheet link. *)
Example case_links_a_b_c :
  get_defendant_case_links
    (mkSoup ""
       [ {[ "href" := "http://www.opcso.org/dcktmstr/666666.php?&docase=111111" ]};
         {[ "href" := "other.php" ]};
         {[ "href" := "http://www.opcso.org/dcktmstr/666666.php?&docase=222222" ]};
         {[ "href" := "http://www.opcso.org/dcktmstr/666666.php?&docase=111111" ]} ])
  = Ok {[ "http://www.opcso.org/dcktmstr/666666.php?&docase=111111";
          "http://www.opcso.org/dcktmstr/666666.php?&docase=222222" ]}.
Proof. vm_compute. reflexivity. Qed.

(** ** Persister *)

Section Persister.

Variable log_file : string.
Variable strftime : nat → string.
Variable write_fault : string → option exn.

Local Abbreviation log := (log log_file strftime).
Local Abbreviation write_data := (write_data log_file strftime write_fault).

(** C8: [write_data] opens [fname] for writing, which truncates it, and
    has released the handle when it returns or raises; the file then
    holds the UTF-8 bytes of [str(data)] when [data] is truthy and the
    write succeeded, and is empty otherwise. *)
Theorem write_data_effect (data : pydata) (fname : string) (s : State) :
  let s1 := log ("Writing " +:+ fname +:+ " of length: "
                 +:+ PyStr.of_nat (PyStr.len (py_str data))) s in
  let written :=
    if truthy data then
      match write_fault fname with
      | None => PyStr.utf8 (py_str data)
      | Some _ => []
      end
    else [] in
  let outcome :=
    if truthy data then
      match write_fault fname with
      | None => Ok tt
      | Some e => Err e
      end
    else Ok tt in
  run_alone (write_data data fname) s
    = (set_files (<[fname := written]> (files s1)) s1, outcome) ∧
  handles (run_alone (write_data data fname) s).1 = handles s ∧
  files (run_alone (write_data data fname) s).1 !! fname = Some written.
Proof.
  intros s1 written outcome.
  assert (Hrun : run_alone (write_data data fname) s
                 = (set_files (<[fname := written]> (files s1)) s1, outcome)).
  { subst s1 written outcome. unfold write_data, with_open_wb, file_write.
    simpl. destruct (truthy data); simpl.
    - destruct (write_fault fname) as [e|]; simpl;
        unfold close_file, write_bytes, open_wb; simpl;
        rewrite decide_True by done; rewrite ?insert_insert_eq; reflexivity.
    - unfold close_file, open_wb; simpl. rewrite decide_True by done.
      reflexivity. }
  rewrite Hrun. simpl. split_and!; [done| |].
  - subst s1. apply handles_log.
  - apply lookup_insert_eq.
Qed.

End Persister.

(** ** Runs *)

Lemma run_atomic_keeps_at G (pool : list task) i j k s s1 m1 :
  pool !! i = Some (Yield k) → run_atomic k s = (s1, m1) →
  (∀ m, pool !! j = Some m → keeps G m) →
  ∀ m, <[i:=m1]> pool !! j = Some m → keeps G m.
Proof.
  intros Hi Hrun Hj m. destruct (decide (i = j)) as [->|Hne].
  - rewrite list_lookup_insert_eq by (by eapply lookup_lt_Some).
    intros [= <-]. specialize (Hj _ Hi). simpl in Hj.
    pose proof (seg_run_atomic G k _ s s s1 m1 (Hj s) Hrun) as Hm.
    destruct m1; try done. by destruct Hm.
  - rewrite list_lookup_insert_ne by done. apply Hj.
Qed.

Lemma drain_keeps_at G sched pool s s' pool' j :
  drain sched pool s = (s', pool') →
  (∀ m, pool !! j = Some m → keeps G m) →
  ∀ m, pool' !! j = Some m → keeps G m.
Proof.
  revert pool s. induction sched as [|i sched IH]; intros pool s; simpl.
  - intros [= <- <-]. done.
  - destruct (pool !! i) as [m0|] eqn:Hi; [|by apply IH].
    destruct m0 as [a|e|f k|k|k]; try by apply IH.
    destruct (run_atomic k s) as [s1 m1] eqn:Hrun.
    intros Hrest Hj. eapply IH; [exact Hrest|].
    by eapply run_atomic_keeps_at.
Qed.

Lemma gather_run_keeps_at G sched pool s s' pool' r j :
  gather_run sched pool s = (s', pool', r) →
  (∀ m, pool !! j = Some m → keeps G m) →
  ∀ m, pool' !! j = Some m → keeps G m.
Proof.
  revert pool s. induction sched as [|i sched IH]; intros pool s; simpl.
  - intros [= <- <- <-]. done.
  - destruct (pool !! i) as [m0|] eqn:Hi; [|by apply IH].
    destruct m0 as [a|e|f k|k|k]; try by apply IH.
    destruct (run_atomic k s) as [s1 m1] eqn:Hrun.
    intros Hrest Hj.
    pose proof (run_atomic_keeps_at G pool i j k s s1 m1 Hi Hrun Hj) as Hj1.
    destruct m1 as [a|e|f k1|k1|k1];
      [by eapply IH| |by eapply IH|by eapply IH|by eapply IH].
    destruct (drain sched _ s1) as [s2 pool2] eqn:Hdrain.
    injection Hrest as <- <- <-. by eapply drain_keeps_at.
Qed.

Lemma gather_inv sched ms s s' r :
  gather sched ms s = Some (s', r) →
  ∃ pool', gather_run sched (spawn ms) s =
           (s', pool', match r with Ok _ => None | Err e => Some e end).
Proof.
  unfold gather.
  destruct (gather_run sched (spawn ms) s) as [[s1 pool1] [e|]].
  - intros [= <- <-]. by eexists.
  - destruct (forallb is_ret pool1); [|done]. intros [= <- <-]. by eexists.
Qed.

Section Runs.

Variables defendant_path docket_path log_file : string.
Variable strftime : nat → string.
Variable http_get : nat → string → result string.
Variable html_parser : string → Soup.
Variable shuffle : list Z → list Z.
Variable write_fault : string → option exn.
Hypothesis shuffle_perm : ∀ l, shuffle l ≡ₚ l.

Local Abbreviation log := (log log_file strftime).
Local Abbreviation write_log := (write_log log_file).
Local Abbreviation entry := (entry strftime).
Local Abbreviation download_defendant_data :=
  (download_defendant_data defendant_path log_file strftime http_get
                           html_parser write_fault).
Local Abbreviation download_sheet_data :=
  (download_sheet_data docket_path log_file strftime http_get write_fault).
Local Abbreviation defendant_fname := (defendant_fname defendant_path).
Local Abbreviation munch_defendants :=
  (munch_defendants defendant_path docket_path log_file strftime http_get
                    html_parser write_fault).
Local Abbreviation munch_work_list := (munch_work_list defendant_path shuffle).
Local Abbreviation munch_body :=
  (munch_body defendant_path docket_path log_file strftime http_get
              html_parser shuffle write_fault).
Local Abbreviation munch :=
  (munch defendant_path docket_path log_file strftime http_get
         html_parser shuffle write_fault).

Lemma munch_body_work_list start stop sched1 sched2 s :
  munch_body start stop sched1 sched2 s =
    match munch_work_list start stop s with
    | Ok defendants => munch_defendants defendants sched1 sched2 s
    | Err e => Some (s, Err e)
    end.
Proof.
  unfold munch_body, munch_work_list, munch_missing.
  destruct (check_defendant_range_downloaded defendant_path start stop s)
    as [[|]|e]; simpl; reflexivity.
Qed.

Lemma munch_work_list_NoDup start stop s defendants :
  munch_work_list start stop s = Ok defendants → NoDup defendants.
Proof.
  unfold munch_work_list.
  destruct (check_defendant_range_downloaded defendant_path start stop s)
    as [[|]|e]; simpl; [| |done].
  - unfold check_missing_defendants, check_missing.
    destruct (downloaded _ _); simpl; [|done]. intros [= <-].
    apply NoDup_filter, NoDup_seqZ.
  - intros [= <-]. rewrite shuffle_perm. apply NoDup_seqZ.
Qed.

Lemma defendant_fname_inj d1 d2 :
  defendant_fname d1 = defendant_fname d2 → d1 = d2.
Proof.
  unfold defendant_fname. intros H. apply String.app_inj in H.
  by apply (id_fname_inj "defendant").
Qed.

Lemma utf8_empty : PyStr.utf8 "" = [].
Proof. reflexivity. Qed.

(** The handler of [munch]: the entry is logged and the buffer flushed. *)
Lemma cancel_flush message s :
  let s' := write_log (write_log (log message s)) in
  log_buffer s' = "" ∧
  files s' !! log_file =
    Some (default [] (files s !! log_file)
          ++ PyStr.utf8 (log_buffer s +:+ entry message s)) ∧
  (∀ p, p ≠ log_file → files s' !! p = files s !! p) ∧
  requests s' = requests s ∧ responses s' = responses s ∧
  failed_urls s' = failed_urls s.
Proof.
  intros s'. subst s'. unfold write_log. simpl.
  rewrite utf8_empty, app_nil_r, !lookup_insert_eq. simpl.
  rewrite requests_log, responses_log, failed_urls_log, log_buffer_log,
    files_log.
  split_and!; try done.
  - destruct (log_len s >? 100000); simpl.
    + by rewrite lookup_insert_eq, utf8_empty, app_nil_r.
    + done.
  - intros p Hp. rewrite !lookup_insert_ne by done.
    destruct (log_len s >? 100000); [|done]. by rewrite lookup_insert_ne.
Qed.

Lemma defendant_pool_issues defendants :
  Forall (keeps (issues (λ u, ∃ d, d ∈ defendants ∧
                              u = def_url +:+ PyStr.of_int d)))
         (spawn (download_defendant_data <$> defendants)).
Proof.
  apply spawn_keeps. rewrite Forall_fmap, Forall_forall. intros d Hd s1.
  apply defendant_task_issues. by exists d.
Qed.

(** C2: when a task of the defendant fan-out raises, [gather] raises, and
    [munch] catches the exception in a state [s_caught]: the siblings
    are not cancelled, and whatever the schedule let them do before the
    handler was entered is part of it.  The run then adds one log entry,
    "Munching cancelled due to exception", to the log as it is in
    [s_caught], and flushes the buffer to the log file; the handler
    changes no file but the log file.  The run does not go on to the
    sheets: every GET of the run, those of the siblings that ran on
    included, is for a defendant of the work list.  The file of a sibling
    that had completed at some point of the schedule before any task had
    raised is, at the end of the run, as that sibling left it. *)
Theorem munch_cancelled_by_error (start stop : Z) (v : bool)
    (sched1 sched2 : list nat) (s s_caught : State) (defendants : list Z)
    (e : exn) :
  let s1 := log "Munching started" (set_verbose v s) in
  let pool := spawn (download_defendant_data <$> defendants) in
  let message := "Munching cancelled due to exception: " +:+ Exn.str e in
  let s_fin := write_log (write_log (log message s_caught)) in
  munch_work_list start stop (set_verbose v s) = Ok defendants →
  gather sched1 (download_defendant_data <$> defendants) s1
    = Some (s_caught, Err e) →
  munch start stop v sched1 sched2 s = Some s_fin ∧
  log_buffer s_fin = "" ∧
  files s_fin !! log_file =
    Some (default [] (files s_caught !! log_file)
          ++ PyStr.utf8 (log_buffer s_caught +:+ entry message s_caught)) ∧
  (∀ p, p ≠ log_file → files s_fin !! p = files s_caught !! p) ∧
  (∃ new, requests s_fin = requests s ++ new ∧
          Forall (λ u, ∃ d, d ∈ defendants ∧ u = def_url +:+ PyStr.of_int d)
                 new) ∧
  (∀ sched_a sched_b s_a pool_a i d,
     sched1 = sched_a ++ sched_b →
     gather_run sched_a pool s1 = (s_a, pool_a, None) →
     defendants !! i = Some d → pool_a !! i = Some (Ret tt) →
     defendant_fname d ≠ log_file →
     files s_fin !! defendant_fname d = files s_a !! defendant_fname d).
Proof.
  intros s1 pool message s_fin Hwork Hgather.
  destruct (cancel_flush message s_caught)
    as (Hbuf & Hlogfile & Hfiles & Hreq & _ & _).
  fold s_fin in Hbuf, Hlogfile, Hfiles, Hreq.
  destruct (gather_inv _ _ _ _ _ Hgather) as [pool_err Hrun].
  fold pool in Hrun.
  split_and!; try done.
  - unfold munch. rewrite munch_body_work_list, Hwork.
    unfold munch_defendants. fold s1. by rewrite Hgather.
  - destruct (gather_run_keeps _ _ _ _ _ _ _
                (defendant_pool_issues defendants) Hrun)
      as [(new & Hnew & Hall) _].
    exists new. split; [|done].
    rewrite Hreq, Hnew. subst s1. by rewrite requests_log.
  - intros sched_a sched_b s_a pool_a i d -> Ha Hd Hi Hlog.
    rewrite gather_run_app, Ha in Hrun.
    rewrite Hfiles by done.
    assert (Hpool_a : Forall (keeps (frame (defendant_fname d))) pool_a).
    { apply Forall_lookup. intros j m Hj.
      destruct (decide (j = i)) as [->|Hne]; [by simplify_eq|].
      revert m Hj. eapply gather_run_keeps_at; [exact Ha|].
      intros m. subst pool. unfold spawn.
      rewrite !list_lookup_fmap.
      destruct (defendants !! j) as [dj|] eqn:Hdj; simpl; [|done].
      intros [= <-]. simpl. intros s0. apply defendant_task_frame; [done|].
      intros Heq%defendant_fname_inj. subst dj.
      apply Hne. eapply NoDup_lookup; [|done..].
      by eapply munch_work_list_NoDup. }
    by destruct (gather_run_keeps _ _ _ _ _ _ _ Hpool_a Hrun) as [Hframe _].
Qed.

Lemma tracks_failures_neutral (f : State → State) s0 s :
  responses (f s) = responses s → failed_urls (f s) = failed_urls s →
  tracks_failures s0 s → tracks_failures s0 (f s).
Proof.
  intros Hr Hf (new & Hnew & Hfail). exists new. by rewrite Hr, Hf.
Qed.

(** At every point of a fan-out, whatever the schedule. *)
Lemma fan_out_tracks_failures sched (defendants : list Z)
    (sheets : list string) s s' pool' r :
  gather_run sched
    (spawn ((download_defendant_data <$> defendants)
            ++ (download_sheet_data <$> sheets))) s = (s', pool', r) →
  tracks_failures s s'.
Proof.
  intros Hrun.
  assert (Hpool : Forall (keeps tracks_failures)
            (spawn ((download_defendant_data <$> defendants)
                    ++ (download_sheet_data <$> sheets)))).
  { apply spawn_keeps, Forall_app. rewrite !Forall_fmap. split.
    - apply Forall_forall. intros d _ s1.
      apply defendant_task_tracks_failures.
    - apply Forall_forall. intros l _ s1.
      apply sheet_task_tracks_failures. }
  by destruct (gather_run_keeps _ _ _ _ _ _ _ Hpool Hrun) as [H _].
Qed.

Lemma munch_defendants_tracks_failures defendants sched1 sched2 s s' r :
  munch_defendants defendants sched1 sched2 s = Some (s', r) →
  tracks_failures s s'.
Proof.
  unfold munch_defendants.
  destruct (gather sched1 _ _) as [[s2 r1]|] eqn:H1; simpl; [|done].
  apply gather_inv in H1 as [pool1 H1].
  assert (G1 : tracks_failures (log "Munching started" s) s2).
  { eapply (fan_out_tracks_failures sched1 defendants []).
    rewrite fmap_nil, app_nil_r. exact H1. }
  clear H1. rename G1 into H1.
  assert (G0 : tracks_failures s s2).
  { etrans; [|exact H1]. apply tracks_failures_neutral;
      [apply responses_log|apply failed_urls_log|reflexivity]. }
  destruct r1 as [[]|e1]; [|by intros [= <- <-]].
  destruct (gather sched2 _ _) as [[s3 r2]|] eqn:H2; simpl; [|done].
  apply gather_inv in H2 as [pool2 H2].
  pose proof (fan_out_tracks_failures sched2 [] (elements (links s2))
                _ _ _ _ H2) as G2.
  assert (G3 : tracks_failures s s3) by (by etrans).
  destruct r2 as [[]|e2]; intros [= <- <-]; [|done].
  apply tracks_failures_neutral;
    [apply responses_log|apply failed_urls_log|done].
Qed.

Lemma munch_tracks_failures start stop v sched1 sched2 s s_fin :
  munch start stop v sched1 sched2 s = Some s_fin → tracks_failures s s_fin.
Proof.
  unfold munch. rewrite munch_body_work_list.
  intros Hrun.
  assert (Hbody : ∀ s1 r,
    match munch_work_list start stop (set_verbose v s) with
    | Ok defendants =>
        munch_defendants defendants sched1 sched2 (set_verbose v s)
    | Err e => Some (set_verbose v s, Err e)
    end = Some (s1, r) → tracks_failures s s1).
  { intros s1 r. destruct (munch_work_list _ _ _) as [defendants|e0].
    - intros H%munch_defendants_tracks_failures.
      etrans; [|exact H]. exists []. by rewrite !app_nil_r.
    - intros [= <- <-]. exists []. by rewrite !app_nil_r. }
  destruct (match munch_work_list start stop (set_verbose v s) with
            | Ok _ => _ | Err _ => _ end) as [[s1 r]|]; simpl in Hrun; [|done].
  specialize (Hbody s1 r eq_refl).
  destruct r as [[]|e]; injection Hrun as <-.
  - apply tracks_failures_neutral; [done|done|done].
  - destruct (cancel_flush ("Munching cancelled due to exception: "
                            +:+ Exn.str e) s1) as (_ & _ & _ & _ & Hr & Hf).
    destruct Hbody as (new & Hnew & Hfail). exists new. by rewrite Hr, Hf.
Qed.

(** C5, what the code does: at every point of a fan-out, under every
    schedule, and at the end of a run, [failed_urls] has grown by what
    [download_item] wrote for each response received, in the order of the
    responses: nothing for a success, the URL for a time-out or a client
    error, and, for any other exception, the characters of the URL, one
    entry each.  So a URL that failed fatally is recorded, against the
    claim, and not even as a URL; only as long as no fetch has failed
    fatally is the list the URLs of the recoverable failures. *)
Theorem failed_urls_record_every_failure (start stop : Z) (v : bool)
    (sched1 sched2 : list nat) (s : State) :
  (∀ sched defendants sheets s0 s' pool' r,
     gather_run sched
       (spawn ((download_defendant_data <$> defendants)
               ++ (download_sheet_data <$> sheets))) s0 = (s', pool', r) →
     ∃ new, responses s' = responses s0 ++ new ∧
            failed_urls s' = failed_urls s0 ++ (new ≫= recorded)) ∧
  (∀ s_fin,
     munch start stop v sched1 sched2 s = Some s_fin →
     ∃ new, responses s_fin = responses s ++ new ∧
            failed_urls s_fin = failed_urls s ++ (new ≫= recorded)) ∧
  (∀ u e, Exn.is_timeout_or_client e = false →
          recorded (u, Err e) = PyStr.singletons u) ∧
  (∀ new, Forall (λ r, fatal r = false) new →
          new ≫= recorded = recoverable_urls new).
Proof.
  split_and!.
  - intros sched defendants sheets s0 s' pool' r.
    apply fan_out_tracks_failures.
  - intros s_fin. apply munch_tracks_failures.
  - intros u e He. unfold recorded. simpl. by rewrite He.
  - apply recorded_recoverable.
Qed.

End Runs.

(** ** Token bucket *)

Module TokenBucketFacts.
Import QArith Qround Lqa TokenBucket.
Local Open Scope Q_scope.

Lemma refill_nonneg c : 0 <= rate c → 0 <= refill c.
Proof.
  intros H. unfold refill. apply Qle_shift_div_l; [reflexivity|]. lra.
Qed.

Lemma replenish_bounds c t :
  replenish c t <= max_tokens c ∧ replenish c t <= t + refill c ∧
  (0 <= rate c → 0 <= max_tokens c → 0 <= t → 0 <= replenish c t).
Proof.
  unfold replenish.
  destruct (Qle_bool (max_tokens c) (t + refill c)) eqn:H.
  - apply Qle_bool_iff in H. split_and!; [lra|lra|intros; lra].
  - assert (¬ max_tokens c <= t + refill c) as H'.
    { rewrite <-Qle_bool_iff. congruence. }
    split_and!; [lra|lra|]. intros Hr _ Ht.
    pose proof (refill_nonneg c Hr). lra.
Qed.

Lemma inject_S (n : nat) : inject_Z (Z.of_nat (S n)) == inject_Z (Z.of_nat n) + 1.
Proof. rewrite Nat2Z.inj_succ. unfold Z.succ. rewrite inject_Z_plus. reflexivity. Qed.

Lemma granted_cons b os :
  granted (b :: os) = if b then S (granted os) else granted os.
Proof. unfold granted. rewrite filter_cons. destruct b; case_decide; done. Qed.

Lemma iter_replenish c n x :
  0 <= rate c → 0 <= x → x <= max_tokens c →
  0 <= Nat.iter n (replenish c) x ∧
  Nat.iter n (replenish c) x <= max_tokens c ∧
  Nat.iter n (replenish c) x <= x + refill c * inject_Z (Z.of_nat n).
Proof.
  intros Hr H0 Hmax. induction n as [|n (I0 & Imax & Iadd)].
  - simpl. change (inject_Z (Z.of_nat 0)) with 0. split_and!; lra.
  - simpl. destruct (replenish_bounds c (Nat.iter n (replenish c) x))
      as (Bmax & Badd & Bpos).
    rewrite inject_S. split_and!; [apply Bpos; lra|lra|lra].
Qed.

Lemma scale_le (x : Q) (a b : Z) :
  0 <= x → (a ≤ b)%Z → x * inject_Z a <= x * inject_Z b.
Proof.
  intros Hx Hab. rewrite (Qmult_comm x (inject_Z a)), (Qmult_comm x (inject_Z b)).
  apply Qmult_le_compat_r; [|done]. by rewrite <-Zle_Qle.
Qed.

Lemma scale_plus (x : Q) (a b : Z) :
  x * inject_Z (a + b) == x * inject_Z a + x * inject_Z b.
Proof. rewrite inject_Z_plus. ring. Qed.

Lemma advance_bounds c b t :
  0 <= rate c → in_order c b →
  in_order c (advance c b t) ∧
  ticks_seen (advance c b t) = Z.max (tick_of c t) (ticks_seen b) ∧
  tokens (advance c b t)
    <= tokens b
       + refill c * inject_Z (Z.max 0 (tick_of c t - ticks_seen b)).
Proof.
  intros Hr [H0 Hmax]. unfold advance, in_order. simpl.
  destruct (iter_replenish c (Z.to_nat (tick_of c t - ticks_seen b))
              (tokens b) Hr H0 Hmax) as (I0 & Imax & Iadd).
  split_and!; [done|done|done|].
  assert (Z.of_nat (Z.to_nat (tick_of c t - ticks_seen b))
          = Z.max 0 (tick_of c t - ticks_seen b)) as <- by lia.
  done.
Qed.

(** Tokens are neither created nor lost: over acquisitions made no
    later than the replenishment [K], what was granted and what is left
    is at most what there was plus what the replenishments up to [K]
    added. *)
Lemma run_balance c K times b :
  0 <= rate c → in_order c b →
  Forall (λ t, (tick_of c t ≤ K)%Z) times →
  in_order c (run c b times).1 ∧
  inject_Z (Z.of_nat (granted (run c b times).2)) + tokens (run c b times).1
    <= tokens b + refill c * inject_Z (Z.max 0 (K - ticks_seen b)).
Proof.
  intros Hr Hb Htimes. revert b Hb.
  pose proof (refill_nonneg c Hr) as Hrefill.
  induction Htimes as [|t times Ht _ IH]; intros b Hb.
  - simpl. split; [done|]. unfold granted. simpl.
    change (inject_Z (Z.of_nat 0)) with 0.
    assert (0 <= refill c * inject_Z (Z.max 0 (K - ticks_seen b))).
    { apply Qmult_le_0_compat; [done|]. change 0 with (inject_Z 0).
      rewrite <-Zle_Qle. lia. }
    lra.
  - destruct (advance_bounds c b t Hr Hb) as ([A0 Amax] & Aseen & Aadd).
    pose proof (scale_le (refill c)
                  (Z.max 0 (tick_of c t - ticks_seen b)
                   + Z.max 0 (K - Z.max (tick_of c t) (ticks_seen b)))
                  (Z.max 0 (K - ticks_seen b)) Hrefill ltac:(lia)) as Hticks.
    rewrite scale_plus in Hticks.
    simpl. unfold acquire.
    remember (advance c b t) as b1 eqn:Eb1. clear Eb1.
    destruct (Qle_bool 1 (tokens b1)) eqn:H1.
    + apply Qle_bool_iff in H1.
      destruct (IH (mkBucket (tokens b1 - 1) (ticks_seen b1)))
        as [I1 I2]; [split; cbn [tokens]; lra|].
      destruct (run c _ times) as [b' os]. cbn [fst snd tokens ticks_seen] in *.
      split; [done|]. rewrite granted_cons, inject_S. rewrite Aseen in I2. lra.
    + destruct (IH b1) as [I1 I2]; [done|].
      destruct (run c b1 times) as [b' os]. cbn [fst snd] in *.
      split; [done|]. rewrite granted_cons. rewrite Aseen in I2. lra.
Qed.

Lemma run_app c b l1 l2 :
  run c b (l1 ++ l2) =
    ((run c (run c b l1).1 l2).1, (run c b l1).2 ++ (run c (run c b l1).1 l2).2).
Proof.
  revert b. induction l1 as [|t l1 IH]; intros b; simpl.
  - by destruct (run c b l2).
  - destruct (acquire c b t) as [b1 o]. rewrite IH.
    destruct (run c b1 l1) as [b2 os]. simpl.
    by destruct (run c b2 l2).
Qed.

Lemma run_length c b times : length (run c b times).2 = length times.
Proof.
  revert b. induction times as [|t times IH]; intros b; [done|]. simpl.
  destruct (acquire c b t) as [b1 o]. specialize (IH b1).
  destruct (run c b1 times). simpl in *. by rewrite IH.
Qed.

Lemma outcomes_run c tokens0 pre win :
  outcomes c tokens0 pre win
    = (run c (run c (startup tokens0) pre).1 win).2.
Proof.
  unfold outcomes. rewrite run_app. simpl.
  rewrite drop_app_length'; [done|]. symmetry. apply run_length.
Qed.

Lemma granted_all os : false ∉ os → granted os = length os.
Proof.
  induction os as [|b os IH]; [done|]. intros H.
  rewrite granted_cons. destruct b.
  - simpl. rewrite IH; [done|]. intros ?. apply H. by right.
  - destruct H. by left.
Qed.

(** A window of duration [T] holds fewer than [T * N + 1] replenishment
    instants. *)
Lemma ticks_in_window c a t T :
  0 <= T → t <= a + T →
  inject_Z (Z.max 0 (tick_of c t - tick_of c a))
    <= T * inject_Z (Z.pos (ticks_per_unit c)) + 1.
Proof.
  intros HT Ht. unfold tick_of.
  set (n := inject_Z (Z.pos (ticks_per_unit c))).
  assert (Hn : 0 < n) by (unfold n, Qlt; simpl; lia).
  pose proof (Qfloor_le (t * n)) as Hup.
  pose proof (Qlt_floor (a * n)) as Hlow.
  rewrite inject_Z_plus in Hlow.
  assert (t * n <= (a + T) * n) by (by apply Qmult_le_compat_r; [|lra]).
  assert (0 <= T * n) by (apply Qmult_le_0_compat; lra).
  destruct (Z.max_spec 0 (Qfloor (t * n) - Qfloor (a * n))) as [[_ ->]|[_ ->]].
  - unfold Zminus. rewrite inject_Z_plus, inject_Z_opp.
    change (inject_Z 1) with 1 in Hlow. lra.
  - change (inject_Z 0) with 0. lra.
Qed.

Lemma bound_unfold c T :
  refill c * (T * inject_Z (Z.pos (ticks_per_unit c)) + 1)
  == rate c * T + refill c.
Proof. unfold refill. field. unfold Qeq. simpl. lia. Qed.

(** From any bucket in order, the acquisitions of a window. *)
Lemma window_balance c b a T win :
  0 <= rate c → 0 <= T → in_order c b →
  Forall (λ t, a <= t ∧ t <= a + T) win →
  inject_Z (Z.of_nat (granted (run c b win).2))
    <= max_tokens c + rate c * T + refill c.
Proof.
  intros Hr HT Hb Hwin.
  pose proof (refill_nonneg c Hr) as Hrefill.
  assert (Hbound : 0 <= max_tokens c + rate c * T + refill c).
  { destruct Hb. assert (0 <= rate c * T) by (apply Qmult_le_0_compat; lra).
    lra. }
  destruct Hwin as [|t win [Hat Ht] Hwin].
  { unfold granted. simpl. change (inject_Z (Z.of_nat 0)) with 0. done. }
  set (K := tick_of c (a + T)).
  assert (HK : Forall (λ t', (tick_of c t' ≤ K)%Z) win).
  { eapply Forall_impl; [exact Hwin|]. intros t' [_ Ht']. simpl.
    unfold K, tick_of. apply Qfloor_resp_le.
    apply Qmult_le_compat_r; [done|]. unfold Qle. simpl. lia. }
  destruct (advance_bounds c b t Hr Hb) as ([A0 Amax] & Aseen & _).
  assert (Hka : (tick_of c a ≤ tick_of c t)%Z).
  { unfold tick_of. apply Qfloor_resp_le.
    apply Qmult_le_compat_r; [done|]. unfold Qle. simpl. lia. }
  pose proof (ticks_in_window c a (a + T) T HT ltac:(lra)) as Hticks.
  fold K in Hticks.
  assert (Hscale : refill c * inject_Z (Z.max 0 (K - ticks_seen (advance c b t)))
                   <= refill c * (T * inject_Z (Z.pos (ticks_per_unit c)) + 1)).
  { eapply Qle_trans;
      [apply (scale_le (refill c) _ (Z.max 0 (K - tick_of c a)));
       [done|lia]|].
    rewrite (Qmult_comm (refill c) (inject_Z _)), (Qmult_comm (refill c) (_ + 1)).
    by apply Qmult_le_compat_r. }
  rewrite bound_unfold in Hscale.
  simpl. unfold acquire.
  remember (advance c b t) as b1 eqn:Eb1. clear Eb1.
  destruct (Qle_bool 1 (tokens b1)) eqn:H1.
  - apply Qle_bool_iff in H1.
    destruct (run_balance c K win (mkBucket (tokens b1 - 1) (ticks_seen b1)) Hr)
      as [[I0 _] I2]; [split; cbn [tokens]; lra|done|].
    destruct (run c _ win) as [b' os]. cbn [fst snd tokens ticks_seen] in *.
    rewrite granted_cons, inject_S. lra.
  - destruct (run_balance c K win b1 Hr) as [[I0 _] I2]; [done|done|].
    destruct (run c b1 win) as [b' os]. cbn [fst snd] in *.
    rewrite granted_cons. lra.
Qed.

Lemma run_in_order c times b :
  0 <= rate c → in_order c b → in_order c (run c b times).1.
Proof.
  intros Hr. revert b. induction times as [|t times IH]; intros b Hb; [done|].
  simpl. unfold acquire.
  destruct (advance_bounds c b t Hr Hb) as ([A0 Amax] & _ & _).
  remember (advance c b t) as b1 eqn:Eb1. clear Eb1.
  destruct (Qle_bool 1 (tokens b1)) eqn:H1.
  - apply Qle_bool_iff in H1.
    specialize (IH (mkBucket (tokens b1 - 1) (ticks_seen b1))).
    destruct (run c _ times) as [b' os]. apply IH.
    split; cbn [tokens]; lra.
  - specialize (IH b1). destruct (run c b1 times) as [b' os]. by apply IH.
Qed.

(** A caller whose requests come at a rate above [rate] is refused a
    token within a number of requests that depends on the configuration
    and on the caller's rate only. *)
Lemma caller_suspends c tokens0 r d :
  0 <= rate c → 0 <= tokens0 → tokens0 <= max_tokens c →
  rate c < r → 0 <= d →
  ∃ n : nat, ∀ times : list Q,
    length times = n →
    (∀ (i : nat) t, times !! i = Some t →
                    t <= (inject_Z (Z.of_nat i) + d) / r) →
    false ∈ (run c (startup tokens0) times).2.
Proof.
  intros Hr H0 Hmax Hrate Hd.
  pose proof (refill_nonneg c Hr) as Hrefill.
  assert (Hpos : 0 < r) by lra.
  set (x := (max_tokens c * r + rate c * d) / (r - rate c)).
  destruct (Qarchimedean x) as [p Hp].
  exists (Pos.to_nat p). intros times Hlen Htimes.
  destruct (decide (false ∈ (run c (startup tokens0) times).2))
    as [|Hall]; [done|exfalso].
  set (n := inject_Z (Z.pos p)) in *.
  assert (Hn : inject_Z (Z.of_nat (length times)) == n).
  { rewrite Hlen, positive_nat_Z. reflexivity. }
  set (y := (n + d) / r).
  assert (Hy : y * r == n + d) by (unfold y; field; lra).
  assert (Hy0 : 0 <= y).
  { unfold y. apply Qle_shift_div_l; [done|].
    assert (0 < n) by (unfold n, Qlt; simpl; lia). lra. }
  set (N := inject_Z (Z.pos (ticks_per_unit c))).
  assert (HN : 0 < N) by (unfold N, Qlt; simpl; lia).
  set (K := tick_of c y).
  assert (HK : Forall (λ t, (tick_of c t ≤ K)%Z) times).
  { apply Forall_lookup. intros i t Hi. unfold K, tick_of.
    apply Qfloor_resp_le. apply Qmult_le_compat_r; [|fold N; lra].
    eapply Qle_trans; [by apply (Htimes i)|]. unfold y.
    apply Qle_shift_div_l; [done|].
    assert (((inject_Z (Z.of_nat i) + d) / r) * r
            == inject_Z (Z.of_nat i) + d) as -> by (field; lra).
    apply lookup_lt_Some in Hi.
    assert (inject_Z (Z.of_nat i) <= n).
    { rewrite <-Hn, <-Zle_Qle. lia. }
    lra. }
  destruct (run_balance c K times (startup tokens0) Hr) as [[F0 _] Hb];
    [by split|done|].
  rewrite (granted_all _ Hall), run_length, Hn in Hb. simpl in Hb.
  assert (HKy : refill c * inject_Z (Z.max 0 (K - 0)) <= rate c * y).
  { assert (inject_Z (Z.max 0 (K - 0)) <= y * N).
    { destruct (Z.max_spec 0 (K - 0)) as [[_ ->]|[_ ->]].
      - rewrite Z.sub_0_r. apply Qfloor_le.
      - change (inject_Z 0) with 0. apply Qmult_le_0_compat; lra. }
    assert (refill c * (y * N) == rate c * y) as <-.
    { unfold refill. fold N. field. lra. }
    rewrite (Qmult_comm (refill c) (inject_Z _)), (Qmult_comm (refill c) (y * N)).
    by apply Qmult_le_compat_r. }
  assert (H1 : n * r <= (max_tokens c + rate c * y) * r).
  { apply Qmult_le_compat_r; lra. }
  assert ((max_tokens c + rate c * y) * r
          == max_tokens c * r + rate c * (n + d)) as E1.
  { rewrite <-Hy. ring. }
  assert (x * (r - rate c) == max_tokens c * r + rate c * d) as E2.
  { unfold x. field. lra. }
  assert (H2 : x * (r - rate c) < n * (r - rate c)).
  { apply Qmult_lt_compat_r; [lra|]. exact Hp. }
  assert (n * (r - rate c) == n * r - rate c * n) as E3 by ring.
  assert (rate c * (n + d) == rate c * n + rate c * d) as E4 by ring.
  lra.
Qed.

(** C9, on the bucket of the specification: whatever was acquired since
    startup, the acquisitions made in a window of duration [T] are
    granted at most [max_tokens + rate * T + rate / N] tokens without
    suspending, one replenishment more than the claim allows; and a
    caller whose [i]-th request comes no later than [(i + d) / r], for a
    rate [r] above [rate], is suspended within a bounded number of
    requests. *)
Theorem token_bucket_window (c : config) (tokens0 : Q) (pre win : list Q)
    (a T : Q) :
  0 <= rate c → 0 <= tokens0 → tokens0 <= max_tokens c → 0 <= T →
  Forall (λ t, a <= t ∧ t <= a + T) win →
  inject_Z (Z.of_nat (granted (outcomes c tokens0 pre win)))
    <= max_tokens c + rate c * T + refill c ∧
  ∀ r d : Q, rate c < r → 0 <= d →
    ∃ n : nat, ∀ times : list Q,
      length times = n →
      (∀ (i : nat) t, times !! i = Some t →
                      t <= (inject_Z (Z.of_nat i) + d) / r) →
      false ∈ (run c (startup tokens0) times).2.
Proof.
  intros Hr H0 Hmax HT Hwin. split.
  - rewrite outcomes_run. apply (window_balance c _ a T); [done|done| |done].
    apply run_in_order; [done|]. by split.
  - intros r d Hrate Hd. by apply caller_suspends.
Qed.

Lemma token_bucket_window_witness :
  inject_Z (Z.of_nat (granted (outcomes (mkConfig 10 10 2) 10 [3 # 10]
                                 (replicate 10 (249 # 100)
                                  ++ replicate 5 (5 # 2)))))
    <= 10 + 10 * (1 # 100) + refill (mkConfig 10 10 2).
Proof.
  apply (token_bucket_window (mkConfig 10 10 2) 10 [3 # 10] _
           (249 # 100) (1 # 100)).
  - vm_compute. discriminate.
  - vm_compute. discriminate.
  - vm_compute. discriminate.
  - vm_compute. discriminate.
  - simpl. repeat (apply Forall_cons; split;
                   [split; vm_compute; discriminate|]).
    constructor.
Defined.

(** The bound of the claim fails for a window that holds a
    replenishment instant: the bucket is full at 2.49, ten requests take
    it all, the replenishment at 2.5 adds five tokens and five more
    requests are granted, fifteen in a hundredth of a time unit, where
    the claim allows [10 + 10 * 0.01].  It does not matter whether the
    bucket was full or empty at startup. *)
Lemma window_straddling_a_replenishment :
  let c := mkConfig 10 10 2 in
  let win := replicate 10 (249 # 100) ++ replicate 5 (5 # 2) in
  Forall (λ t, 249 # 100 <= t ∧ t <= (249 # 100) + (1 # 100)) win ∧
  outcomes c 10 [] win = replicate 15 true ∧
  outcomes c 0 [] win = replicate 15 true ∧
  ¬ inject_Z (Z.of_nat (granted (outcomes c 10 [] win)))
      <= max_tokens c + rate c * (1 # 100).
Proof.
  split_and!.
  - simpl. repeat (apply Forall_cons; split;
                   [split; vm_compute; discriminate|]).
    constructor.
  - vm_compute. reflexivity.
  - vm_compute. reflexivity.
  - vm_compute. intros H. by apply H.
Qed.

End TokenBucketFacts.

Lemma triple_eta {A B C} (x : A * B * C) (c : C) :
  x.2 = c → x = (x.1.1, x.1.2, c).
Proof. destruct x as [[a b] c']. simpl. by intros ->. Qed.

Lemma munch_cancelled_by_error_witness :
  let s1 := log "log.txt" Demo.strftime "Munching started" Demo.s0 in
  let pool := spawn (Demo.defendant_task <$> [100000; 100001; 100002]) in
  let s_a := (gather_run [0; 0; 0; 0; 0; 0]%nat pool s1).1.1 in
  let s_caught := (gather_run [0; 0; 0; 0; 0; 0; 2; 2; 2; 1; 1; 1]%nat pool s1).1.1 in
  let s_fin :=
    write_log "log.txt"
      (write_log "log.txt"
         (log "log.txt" Demo.strftime
              "Munching cancelled due to exception: Session is closed"
              s_caught)) in
  Demo.munch 100000 100003 false [0; 0; 0; 0; 0; 0; 2; 2; 2; 1; 1; 1]%nat [] Demo.s0
    = Some s_fin ∧
  files s_fin !! "defendants/defendant100000.html"
    = files s_a !! "defendants/defendant100000.html".
Proof.
  intros s1 pool s_a s_caught s_fin.
  destruct (munch_cancelled_by_error "defendants/" "dockets/" "log.txt"
              Demo.strftime Demo.http_get Demo.html_parser id Demo.no_fault
              (λ l, reflexivity l)
              100000 100003 false [0; 0; 0; 0; 0; 0; 2; 2; 2; 1; 1; 1]%nat []
              Demo.s0 s_caught [100000; 100001; 100002] Demo.RuntimeError)
    as (Hrun & _ & _ & _ & _ & Hsibling).
  - vm_compute. reflexivity.
  - vm_compute. reflexivity.
  - split; [exact Hrun|].
    apply (Hsibling [0; 0; 0; 0; 0; 0]%nat [2; 2; 2; 1; 1; 1]%nat s_a
             (gather_run [0; 0; 0; 0; 0; 0]%nat pool s1).1.2 0%nat 100000).
    + reflexivity.
    + apply triple_eta. vm_compute. reflexivity.
    + reflexivity.
    + vm_compute. reflexivity.
    + vm_compute. discriminate.
Defined.

Lemma failed_urls_record_every_failure_witness :
  failed_urls
    (default Demo.s0
       (Demo.munch 100002 100003 false [0; 0; 0]%nat [] Demo.s0))
  = PyStr.singletons (def_url +:+ "100002").
Proof.
  destruct (failed_urls_record_every_failure "defendants/" "dockets/"
              "log.txt" Demo.strftime Demo.http_get Demo.html_parser id
              Demo.no_fault 100002 100003 false [0; 0; 0]%nat [] Demo.s0)
    as (_ & Hrun & _ & _).
  destruct (Hrun (default Demo.s0
                    (Demo.munch 100002 100003 false [0; 0; 0]%nat []
                       Demo.s0)))
    as (new & Hnew & Hfail).
  - vm_compute. reflexivity.
  - simpl in Hnew. fold Demo.munch in Hfail. rewrite Hfail, <-Hnew.
    assert (responses
              (default Demo.s0
                 (Demo.munch 100002 100003 false [0; 0; 0]%nat [] Demo.s0))
            = [(def_url +:+ "100002", Err Demo.RuntimeError)]) as ->
      by (vm_compute; reflexivity).
    vm_compute. reflexivity.
Defined.

(** The run C5 fails on: the GET of defendant 100002 raises a
    [RuntimeError]; no URL has failed with a time-out or a client error,
    and [failed_urls] holds the 56 characters of the URL. *)
Lemma fatal_failure_recorded_by_character :
  let s_fin :=
    default Demo.s0 (Demo.munch 100002 100003 false [0; 0; 0]%nat [] Demo.s0) in
  Demo.munch 100002 100003 false [0; 0; 0]%nat [] Demo.s0 = Some s_fin ∧
  responses s_fin = [(def_url +:+ "100002", Err Demo.RuntimeError)] ∧
  recoverable_urls (responses s_fin) = [] ∧
  failed_urls s_fin = PyStr.singletons (def_url +:+ "100002") ∧
  failed_urls s_fin
    ≠ failed_urls Demo.s0 ++ recoverable_urls (responses s_fin).
Proof.
  split_and!.
  - vm_compute. reflexivity.
  - vm_compute. reflexivity.
  - vm_compute. reflexivity.
  - vm_compute. reflexivity.
  - vm_compute. discriminate.
Qed.

(** * Further properties of the code *)

(** ** [chunk_string] *)

Lemma chars_of_chars l : PyStr.chars (PyStr.of_chars l) = l.
Proof. apply list_ascii_of_string_of_list_ascii. Qed.

Lemma len_chars s : PyStr.len s = length (PyStr.chars s).
Proof.
  unfold PyStr.len, PyStr.chars. induction s as [|c s IH]; simpl; congruence.
Qed.

(** A slice between two non-negative bounds in order. *)
Lemma slice_nonneg a b s :
  0 ≤ a ≤ b →
  PyStr.chars (PyStr.slice a b s)
    = take (Z.to_nat (b - a)) (drop (Z.to_nat a) (PyStr.chars s)).
Proof.
  intros Hab. unfold PyStr.slice, PyStr.clamp. rewrite chars_of_chars, len_chars.
  set (l := PyStr.chars s).
  destruct (a <? 0) eqn:Ha; [lia|]. destruct (b <? 0) eqn:Hb; [lia|].
  destruct (decide (Z.of_nat (length l) ≤ a)).
  - rewrite !drop_ge by lia. by rewrite !take_nil.
  - destruct (decide (Z.of_nat (length l) ≤ b)).
    + rewrite !take_ge; [|rewrite length_drop; lia|rewrite length_drop; lia].
      f_equal. lia.
    + f_equal; [lia|]. f_equal. lia.
Qed.

Lemma chars_join parts :
  PyStr.chars (PyStr.join parts) = concat (PyStr.chars <$> parts).
Proof.
  induction parts as [|p parts IH]; [done|].
  simpl. by rewrite RegexFacts.chars_app, IH.
Qed.

(** Cutting a list into [n] pieces of length [k] and gluing them back. *)
Lemma concat_pieces {A} (k n : nat) (l : list A) :
  (length l ≤ n * k)%nat →
  concat ((λ i, take k (drop (i * k) l)) <$> seq 0 n) = l.
Proof.
  revert l. induction n as [|n IH]; intros l Hl.
  - destruct l; [done|simpl in Hl; lia].
  - simpl. rewrite <-(fmap_S_seq 0 n), <-list_fmap_compose.
    transitivity (take k l ++ drop k l); [|apply take_drop]. f_equal.
    etrans; [|apply (IH (drop k l)); rewrite length_drop; lia].
    f_equal. apply list_fmap_ext. intros _ i _. simpl.
    by rewrite drop_drop, (Nat.add_comm k).
Qed.

Lemma py_range_0 n : py_range 0 (Z.of_nat n) = Z.of_nat <$> seq 0 n.
Proof.
  unfold py_range. rewrite Z.sub_0_r. unfold seqZ.
  rewrite Nat2Z.id. apply list_fmap_ext. intros _ i _. lia.
Qed.

(** The number of chunks for a positive chunk size: the least [n] with
    [n * chunk_size >= len]. *)
Lemma n_chunks_spec (len cs : Z) :
  0 ≤ len → 0 < cs →
  let n := if len mod cs =? 0 then len / cs else len / cs + 1 in
  0 ≤ n ∧ len ≤ n * cs ∧ n * cs < len + cs.
Proof.
  intros Hlen Hcs n. subst n.
  pose proof (Z.div_mod len cs ltac:(lia)) as Hdm.
  pose proof (Z.mod_pos_bound len cs Hcs) as Hm.
  pose proof (Z.div_pos len cs Hlen Hcs) as Hq.
  destruct (len mod cs =? 0) eqn:E.
  - apply Z.eqb_eq in E. split_and!; nia.
  - apply Z.eqb_neq in E. split_and!; nia.
Qed.

Lemma chunk_string_pos (string : String.string) (cs : Z) :
  0 < cs →
  ∃ n : nat,
    chunk_string string cs
      = Ok ((λ i : nat, PyStr.of_chars
               (take (Z.to_nat cs)
                     (drop (i * Z.to_nat cs) (PyStr.chars string))))
            <$> seq 0 n) ∧
    (length (PyStr.chars string) ≤ n * Z.to_nat cs)%nat ∧
    (n * Z.to_nat cs < length (PyStr.chars string) + Z.to_nat cs)%nat.
Proof.
  intros Hcs. unfold chunk_string.
  destruct (cs =? 0) eqn:E0; [lia|]. rewrite len_chars.
  set (l := PyStr.chars string). set (len := Z.of_nat (length l)).
  destruct (n_chunks_spec len cs ltac:(lia) Hcs) as (Hn0 & Hn1 & Hn2).
  set (n := if len mod cs =? 0 then len / cs else len / cs + 1) in *.
  exists (Z.to_nat n). split_and!.
  - f_equal. rewrite <-(Z2Nat.id n) at 1 by done. rewrite py_range_0.
    rewrite <-list_fmap_compose. apply list_fmap_ext. intros _ i _. simpl.
    apply chars_inj. rewrite slice_nonneg by nia. rewrite chars_of_chars.
    fold l.
    replace ((Z.of_nat i + 1) * cs - Z.of_nat i * cs) with cs by ring.
    rewrite Z2Nat.inj_mul, Nat2Z.id by lia. reflexivity.
  - apply Nat2Z.inj_le. rewrite Nat2Z.inj_mul, !Z2Nat.id by lia. exact Hn1.
  - apply Nat2Z.inj_lt.
    rewrite Nat2Z.inj_mul, Nat2Z.inj_add, !Z2Nat.id by lia. exact Hn2.
Qed.

(** X1: for a positive chunk size, the chunks put end to end are the
    string. *)
Theorem chunk_string_join (string : String.string) (chunk_size : Z) :
  0 < chunk_size →
  ∃ chunks, chunk_string string chunk_size = Ok chunks ∧
            PyStr.join chunks = string.
Proof.
  intros Hcs. destruct (chunk_string_pos string chunk_size Hcs)
    as (n & Hrun & Hlen & _).
  eexists. split; [exact Hrun|]. apply chars_inj.
  rewrite chars_join, <-list_fmap_compose.
  erewrite list_fmap_ext; [apply (concat_pieces (Z.to_nat chunk_size) n _ Hlen)|].
  intros _ i _. simpl. apply chars_of_chars.
Qed.

Lemma chunk_string_join_witness :
  ∃ chunks, chunk_string "633000,633001" 4 = Ok chunks ∧
            PyStr.join chunks = "633000,633001".
Proof. apply chunk_string_join. lia. Defined.

(** X2: for a positive chunk size every chunk but the last has exactly
    [chunk_size] characters, the last has between one and [chunk_size],
    and the empty string has no chunk. *)
Theorem chunk_string_sizes (string : String.string) (chunk_size : Z) :
  0 < chunk_size →
  ∃ chunks, chunk_string string chunk_size = Ok chunks ∧
    (string = "" → chunks = []) ∧
    ∀ (i : nat) chunk, chunks !! i = Some chunk →
      1 ≤ Z.of_nat (PyStr.len chunk) ≤ chunk_size ∧
      ((S i < length chunks)%nat → Z.of_nat (PyStr.len chunk) = chunk_size).
Proof.
  intros Hcs. destruct (chunk_string_pos string chunk_size Hcs)
    as (n & Hrun & Hlen & Hmin).
  eexists. split; [exact Hrun|]. split.
  - intros ->. simpl in Hmin. destruct n; [done|lia].
  - intros i chunk. rewrite list_lookup_fmap, length_fmap, length_seq.
    destruct (seq 0 n !! i) as [j|] eqn:Hj; simpl; [|done].
    apply lookup_seq in Hj as [-> Hi]. simpl. intros [= <-].
    rewrite len_chars, chars_of_chars, length_take, length_drop.
    split; [nia|]. intros Hlast. nia.
Qed.

Lemma chunk_string_sizes_witness :
  ∃ chunks, chunk_string "633000,633001" 4 = Ok chunks ∧
    ("633000,633001" = "" → chunks = []) ∧
    ∀ (i : nat) chunk, chunks !! i = Some chunk →
      1 ≤ Z.of_nat (PyStr.len chunk) ≤ 4 ∧
      ((S i < length chunks)%nat → Z.of_nat (PyStr.len chunk) = 4).
Proof. apply chunk_string_sizes. lia. Defined.

(** X3: a chunk size of zero raises [ZeroDivisionError]; a negative one
    yields no chunk at all, whatever the string. *)
Theorem chunk_string_not_positive (string : String.string) (chunk_size : Z) :
  (chunk_size = 0 → chunk_string string chunk_size = Err Exn.ZeroDivisionError) ∧
  (chunk_size < 0 → chunk_string string chunk_size = Ok []).
Proof.
  unfold chunk_string. split.
  - intros ->. reflexivity.
  - intros Hcs. destruct (chunk_size =? 0) eqn:E; [lia|].
    rewrite len_chars. set (len := Z.of_nat (length (PyStr.chars string))).
    assert (Hlen : 0 ≤ len) by (subst len; lia).
    pose proof (Z.div_mod len chunk_size ltac:(lia)) as Hdm.
    pose proof (Z.mod_neg_bound len chunk_size Hcs) as Hm.
    f_equal. unfold py_range.
    destruct (len mod chunk_size =? 0) eqn:E1.
    + rewrite seqZ_nil; [done|]. nia.
    + apply Z.eqb_neq in E1. rewrite seqZ_nil; [done|]. nia.
Qed.

Lemma chunk_string_not_positive_witness :
  chunk_string "633000" 0 = Err Exn.ZeroDivisionError ∧
  chunk_string "633000" (-4) = Ok [].
Proof.
  split.
  - apply (proj1 (chunk_string_not_positive "633000" 0)). reflexivity.
  - apply (proj2 (chunk_string_not_positive "633000" (-4))). lia.
Defined.

(** ** File names and the IDs read off them *)

Lemma digit_not_space c : Regex.is_digit c = true → PyInt.py_isspace c = false.
Proof.
  unfold Regex.is_digit, PyInt.py_isspace. intros H.
  apply andb_true_iff in H as [H1%N.leb_le H2%N.leb_le].
  generalize dependent (N_of_ascii c). intros n H1 H2.
  destruct (N.leb_spec 9 n), (N.leb_spec n 13), (N.eqb_spec n 32),
    (N.eqb_spec n 133), (N.eqb_spec n 160);
    simpl; try reflexivity; lia.
Qed.

(** Nothing is stripped from a string that neither starts nor ends with
    white space. *)
Lemma strip_ends c l c' :
  PyInt.py_isspace c = false → PyInt.py_isspace c' = false →
  PyInt.strip (c :: l ++ [c']) = c :: l ++ [c'] ∧
  PyInt.strip [c] = [c].
Proof.
  intros Hc Hc'. unfold PyInt.strip. simpl. rewrite Hc. split.
  - rewrite reverse_cons, reverse_app. simpl. rewrite Hc'.
    rewrite reverse_cons, reverse_app, reverse_involutive. done.
  - change (reverse [c]) with [c]. simpl. by rewrite Hc.
Qed.

Lemma strip_digits l :
  Forall (λ c, Regex.is_digit c = true) l → PyInt.strip l = l.
Proof.
  intros Hl. destruct l as [|c l]; [done|].
  apply Forall_cons in Hl as [Hc Hl].
  destruct (decide (l = [])) as [->|Hne].
  - by apply (strip_ends c [] c); apply digit_not_space.
  - destruct (exists_last Hne) as (l' & c' & ->).
    apply Forall_app in Hl as [_ [Hc' _]%Forall_cons].
    by apply strip_ends; apply digit_not_space.
Qed.

Lemma digits_decimal acc b l :
  Forall (λ c, Regex.is_digit c = true) l → l ≠ [] ∨ b = true →
  PyInt.digits acc b l = Some (decimal acc l).
Proof.
  intros Hl. revert acc b. induction Hl as [|c l Hc _ IH]; intros acc b Hb.
  - destruct Hb as [Hb| ->]; done.
  - simpl. rewrite Hc. apply IH. by right.
Qed.

Lemma parse_digits l :
  Forall (λ c, Regex.is_digit c = true) l → l ≠ [] →
  PyInt.parse (PyStr.of_chars l) = Some (decimal 0 l).
Proof.
  intros Hl Hne. unfold PyInt.parse.
  rewrite chars_of_chars, strip_digits by done.
  destruct l as [|c l]; [done|].
  apply Forall_cons in Hl as [Hc Hl].
  assert (Ascii.eqb c "+" = false ∧ Ascii.eqb c "-" = false) as [-> ->].
  { split; apply Ascii.eqb_neq; intros ->; done. }
  apply digits_decimal; [by constructor|by left].
Qed.

Lemma digit_value_char a :
  (a < 10)%N → PyInt.digit_value (pretty_N_char a) = Z.of_N a.
Proof.
  intros Ha.
  assert (a = 0 ∨ a = 1 ∨ a = 2 ∨ a = 3 ∨ a = 4 ∨ a = 5 ∨ a = 6 ∨ a = 7
          ∨ a = 8 ∨ a = 9)%N as H by lia.
  repeat (destruct H as [->|H]; [reflexivity|]). by subst a.
Qed.

Lemma pretty_N_go_six x s :
  (100000 ≤ x)%N →
  pretty_N_go x s
    = pretty_N_go (x `div` 1000000)
        (PyStr.of_chars (last_six x) +:+ s).
Proof.
  intros Hx.
  rewrite (pretty_N_go_step x) by lia.
  rewrite (pretty_N_go_step (x `div` 10)%N)
    by (apply N.div_str_pos; lia).
  rewrite (pretty_N_go_step ((x `div` 10) `div` 10)%N)
    by (rewrite N.Div0.div_div; apply N.div_str_pos; lia).
  rewrite (pretty_N_go_step (((x `div` 10) `div` 10) `div` 10)%N)
    by (rewrite !N.Div0.div_div; apply N.div_str_pos; lia).
  rewrite (pretty_N_go_step ((((x `div` 10) `div` 10) `div` 10) `div` 10)%N)
    by (rewrite !N.Div0.div_div; apply N.div_str_pos; lia).
  rewrite (pretty_N_go_step
             (((((x `div` 10) `div` 10) `div` 10) `div` 10) `div` 10)%N)
    by (rewrite !N.Div0.div_div; apply N.div_str_pos; lia).
  rewrite !N.Div0.div_div. simpl.
  change (10 * 10)%N with (10 ^ 2)%N. rewrite N.div_1_r.
  reflexivity.
Qed.

Lemma last_six_digits x :
  Forall (λ c, Regex.is_digit c = true) (last_six x) ∧
  decimal 0 (last_six x) = Z.of_N (x `mod` 1000000).
Proof.
  split.
  - unfold last_six. rewrite Forall_fmap. apply Forall_forall.
    intros k _. apply pretty_N_char_digit.
  - unfold last_six, decimal. simpl.
    rewrite !digit_value_char by (apply N.mod_lt; lia).
    rewrite N.div_1_r. simpl.
    change (10 ^ 5)%N with 100000%N. change (10 ^ 4)%N with 10000%N.
    change (10 ^ 3)%N with 1000%N. change (10 ^ 2)%N with 100%N.
    change (10 ^ 1)%N with 10%N.
    rewrite !N2Z.inj_mod, !N2Z.inj_div. simpl.
    generalize (Z.of_N x) (N2Z.is_nonneg x). intros z Hz.
    Z.to_euclidean_division_equations. lia.
Qed.

(** The numeral of a number with at least six digits ends in its last six
    digits. *)
Lemma of_int_six j :
  100000 ≤ j →
  ∃ front, PyStr.chars (PyStr.of_int j) = front ++ last_six (Z.to_N j).
Proof.
  intros Hj. unfold PyStr.of_int, pretty, pretty_Z.
  destruct j as [|p|p]; try lia.
  unfold pretty, pretty_positive, pretty, pretty_N.
  case_decide; [done|].
  rewrite pretty_N_go_six by lia.
  destruct (pretty_N_go_digits (N.pos p `div` 1000000)
              (PyStr.of_chars (last_six (N.pos p)) +:+ ""))
    as (front & -> & _).
  exists (PyStr.chars front).
  rewrite !RegexFacts.chars_app, chars_of_chars.
  change (PyStr.chars "") with (@nil ascii). by rewrite app_nil_r.
Qed.

Lemma take_last_app_six (front six : list ascii) :
  length six = 6%nat →
  PyStr.take_last 6 (PyStr.of_chars (front ++ six)) = PyStr.of_chars six.
Proof.
  intros Hsix. unfold PyStr.take_last.
  rewrite len_chars, chars_of_chars, length_app, Hsix.
  replace (length front + 6 - 6)%nat with (length front) by lia.
  by rewrite drop_app_length.
Qed.

Lemma drop_last_html (name : string) :
  PyStr.drop_last 5 (name +:+ ".html") = name.
Proof.
  unfold PyStr.drop_last. apply chars_inj.
  rewrite chars_of_chars, len_chars, RegexFacts.chars_app, length_app.
  change (length (PyStr.chars ".html")) with 5%nat.
  replace (length (PyStr.chars name) + 5 - 5)%nat
    with (length (PyStr.chars name)) by lia.
  by rewrite take_app_length.
Qed.

Lemma of_chars_chars s : PyStr.of_chars (PyStr.chars s) = s.
Proof. apply string_of_list_ascii_of_string. Qed.

Lemma id_fname_assoc prefix j :
  id_fname prefix j = (prefix +:+ PyStr.of_int j) +:+ ".html".
Proof. unfold id_fname. by rewrite app_assoc_str. Qed.

(** The ID read off the file of an ID with six digits or more. *)
Lemma file_id_long prefix j :
  100000 ≤ j → file_id (id_fname prefix j) = Ok (j mod 1000000).
Proof.
  intros Hj. unfold file_id, PyInt.int.
  rewrite id_fname_assoc, drop_last_html.
  destruct (of_int_six j Hj) as [front Hfront].
  destruct (last_six_digits (Z.to_N j)) as [Hds Hval].
  assert (prefix +:+ PyStr.of_int j
          = PyStr.of_chars ((PyStr.chars prefix ++ front)
                            ++ last_six (Z.to_N j))) as ->.
  { apply chars_inj.
    by rewrite chars_of_chars, RegexFacts.chars_app, Hfront, app_assoc. }
  rewrite take_last_app_six by reflexivity.
  rewrite parse_digits by done. rewrite Hval.
  f_equal. rewrite N2Z.inj_mod, Z2N.id by lia. reflexivity.
Qed.

Lemma file_id_six prefix j :
  100000 ≤ j < 1000000 → file_id (id_fname prefix j) = Ok j.
Proof.
  intros Hj. rewrite file_id_long by lia. f_equal.
  apply Z.mod_small. lia.
Qed.

(** X4: the file the scraper writes for a six-digit ID is read back as
    that ID by the auditor, whatever the prefix. *)
Theorem file_id_six_digits (prefix : string) (j : Z) :
  100000 ≤ j < 1000000 → file_id (id_fname prefix j) = Ok j.
Proof. apply file_id_six. Qed.

Lemma file_id_six_digits_witness :
  file_id (id_fname "defendant" 633000) = Ok 633000.
Proof. apply file_id_six_digits. lia. Defined.

(** X5: the file of an ID of seven digits or more is read as the file of
    its last six digits, so with only that file in the directory the ID
    is reported missing and the range is taken for never attempted. *)
Theorem long_id_aliased (prefix : string) (j : Z) :
  1000000 ≤ j →
  file_id (id_fname prefix j) = Ok (j mod 1000000) ∧
  check_missing j (j + 1) [id_fname prefix j] (Regex.id_file prefix) = Ok [j] ∧
  check_range_downloaded j (j + 1) [id_fname prefix j] (Regex.id_file prefix)
    = Ok false.
Proof.
  intros Hj.
  assert (Hid : file_id (id_fname prefix j) = Ok (j mod 1000000))
    by (apply file_id_long; lia).
  assert (Hmod : 0 ≤ j mod 1000000 < 1000000) by (apply Z.mod_pos_bound; lia).
  split; [done|].
  unfold check_missing, check_range_downloaded. simpl.
  rewrite id_fname_search by lia. rewrite Hid. simpl.
  unfold mret, result_ret. split.
  - f_equal. unfold py_range. assert (j + 1 - j = 1) as -> by lia.
    rewrite seqZ_cons, seqZ_nil by lia.
    rewrite filter_cons_True; [done|].
    intros [E|[]%elem_of_nil]%elem_of_cons. lia.
  - f_equal. rewrite !bool_decide_eq_false_2; [done|..];
      intros [E|[]%elem_of_nil]%elem_of_cons; lia.
Qed.

Lemma long_id_aliased_witness :
  file_id (id_fname "docket" 1234567) = Ok 234567.
Proof. apply (proj1 (long_id_aliased "docket" 1234567 ltac:(lia))). Defined.

(** ** Directories and the IDs found in them *)

Lemma pretty_N_go_length (k : nat) (x : N) (s : string) :
  (x < 10 ^ N.of_nat k)%N →
  (PyStr.len (pretty_N_go x s) ≤ k + PyStr.len s)%nat.
Proof.
  revert x s. induction k as [|k IH]; intros x s Hx.
  - assert (x = 0%N) as -> by (simpl in Hx; lia). by rewrite pretty_N_go_0.
  - destruct (decide (x = 0%N)) as [->|Hne]; [rewrite pretty_N_go_0; lia|].
    rewrite pretty_N_go_step by lia.
    etrans; [apply IH|simpl; lia].
    rewrite Nat2N.inj_succ, N.pow_succ_r' in Hx.
    apply N.Div0.div_lt_upper_bound. lia.
Qed.

Lemma of_int_short j :
  0 ≤ j < 100000 →
  ∃ ds, PyStr.chars (PyStr.of_int j) = ds ∧ ds ≠ [] ∧ (length ds ≤ 5)%nat ∧
        Forall (λ c, Regex.is_digit c = true) ds.
Proof.
  intros Hj. destruct (of_int_digits j ltac:(lia)) as [Hne Hds].
  eexists. split_and!; [reflexivity|done| |done].
  rewrite <-len_chars. unfold PyStr.of_int, pretty, pretty_Z.
  destruct j as [|p|p]; [simpl; lia| |lia].
  unfold pretty, pretty_positive, pretty, pretty_N. case_decide; [done|].
  etrans; [apply (pretty_N_go_length 5)|simpl; lia]. simpl. lia.
Qed.

Lemma parse_letter_first c l :
  letter c = true →
  match last l with Some c' => PyInt.py_isspace c' = false | None => True end →
  PyInt.parse (PyStr.of_chars (c :: l)) = None.
Proof.
  unfold letter. intros Hc Hlast.
  apply andb_true_iff in Hc as [Hc Hminus].
  apply andb_true_iff in Hc as [Hc Hplus].
  apply andb_true_iff in Hc as [Hspace Hdigit].
  apply negb_true_iff in Hspace, Hdigit, Hplus, Hminus.
  unfold PyInt.parse. rewrite chars_of_chars.
  assert (PyInt.strip (c :: l) = c :: l) as ->.
  { destruct (decide (l = [])) as [->|Hne].
    - by apply (strip_ends c [] c).
    - destruct (exists_last Hne) as (l' & c' & ->).
      rewrite last_snoc in Hlast. by apply strip_ends. }
  rewrite Hplus, Hminus. simpl. rewrite Hdigit.
  by rewrite andb_false_r.
Qed.

Lemma parse_prefix_digits (pre ds : list ascii) :
  Forall (λ c, letter c = true) pre →
  Forall (λ c, Regex.is_digit c = true) ds →
  ds ≠ [] → (length ds < 6 ≤ length pre + length ds)%nat →
  PyInt.parse (PyStr.take_last 6 (PyStr.of_chars (pre ++ ds))) = None.
Proof.
  intros Hpre Hds Hne Hlen. unfold PyStr.take_last.
  rewrite len_chars, chars_of_chars, length_app.
  rewrite drop_app_le by lia.
  destruct (drop (length pre + length ds - 6) pre) as [|c rest] eqn:Hdrop.
  { apply (f_equal length) in Hdrop. rewrite length_drop in Hdrop.
    simpl in Hdrop. lia. }
  assert (Hc : letter c = true).
  { pose proof (Forall_drop _ (length pre + length ds - 6) _ Hpre) as Hd.
    rewrite Hdrop in Hd. by apply Forall_cons in Hd as [? _]. }
  rewrite <-app_comm_cons. apply parse_letter_first; [done|].
  destruct (exists_last Hne) as (ds' & c' & ->).
  rewrite app_assoc, last_snoc.
  apply Forall_app in Hds as [_ [Hc' _]%Forall_cons].
  by apply digit_not_space.
Qed.

(** The file of an ID below 100000, for the two prefixes of the source,
    has a letter of the prefix among its six characters. *)
Lemma file_id_short prefix j :
  prefix = "defendant" ∨ prefix = "docket" → 0 ≤ j < 100000 →
  PyInt.parse (PyStr.take_last 6 (PyStr.drop_last 5 (id_fname prefix j)))
    = None.
Proof.
  intros Hprefix Hj. rewrite id_fname_assoc, drop_last_html.
  destruct (of_int_short j Hj) as (ds & Hchars & Hne & Hlen & Hds).
  assert (prefix +:+ PyStr.of_int j
          = PyStr.of_chars (PyStr.chars prefix ++ ds)) as ->.
  { apply chars_inj. by rewrite chars_of_chars, RegexFacts.chars_app, Hchars. }
  assert (0 < length ds)%nat by (destruct ds; [done|simpl; lia]).
  apply parse_prefix_digits; [|done|done|].
  - destruct Hprefix as [-> | ->]; repeat constructor.
  - destruct Hprefix as [-> | ->]; simpl; lia.
Qed.

(** X6: a directory that holds the file of an ID below 100000 makes both
    auditor functions raise [ValueError], whatever the range asked for;
    this holds for defendant files and for docket files. *)
Theorem short_id_file_raises (prefix : string) (j start stop : Z)
    (listing : list string) :
  prefix = "defendant" ∨ prefix = "docket" →
  0 ≤ j < 100000 → id_fname prefix j ∈ listing →
  ∃ msg,
    check_missing start stop listing (Regex.id_file prefix)
      = Err (Exn.ValueError msg) ∧
    check_range_downloaded start stop listing (Regex.id_file prefix)
      = Err (Exn.ValueError msg).
Proof.
  intros Hprefix Hj Hin.
  destruct (downloaded_raises (Regex.id_file prefix) listing
              (id_fname prefix j) Hin) as [msg Hd].
  - apply id_fname_search. lia.
  - by apply file_id_short.
  - exists msg. unfold check_missing, check_range_downloaded. by rewrite Hd.
Qed.

Lemma short_id_file_raises_witness :
  ∃ msg,
    check_missing 100000 100010 ["docket111111.html"; "docket99999.html"]
                  (Regex.id_file "docket") = Err (Exn.ValueError msg) ∧
    check_range_downloaded 100000 100010
      ["docket111111.html"; "docket99999.html"] (Regex.id_file "docket")
      = Err (Exn.ValueError msg).
Proof.
  apply (short_id_file_raises "docket" 99999).
  - by right.
  - lia.
  - apply (bool_decide_unpack _). vm_compute. exact I.
Defined.

(** X7: in a directory that holds the files of six-digit IDs [ids], in
    any order and among files that do not match the pattern, the
    missing-list is the range without [ids]. *)
Theorem check_missing_six_digit_directory (prefix : string) (start stop : Z)
    (listing others : list string) (ids : list Z) :
  Forall (λ j, 100000 ≤ j < 1000000) ids →
  Forall (λ n, Regex.search (Regex.id_file prefix) n = false) others →
  listing ≡ₚ (id_fname prefix <$> ids) ++ others →
  check_missing start stop listing (Regex.id_file prefix)
    = Ok (filter (λ j, j ∉ ids) (py_range start stop)).
Proof.
  intros Hids Hothers Hperm.
  assert (Hmatch : ∀ i, i ∈ listing →
            Regex.search (Regex.id_file prefix) i = true →
            ∃ j, j ∈ ids ∧ i = id_fname prefix j ∧ file_id i = Ok j).
  { intros i Hi Hs. rewrite Hperm in Hi.
    apply elem_of_app in Hi as [Hi|Hi].
    - apply list_elem_of_fmap in Hi as (j & -> & Hj). exists j.
      split_and!; [done|done|]. apply file_id_six.
      rewrite Forall_forall in Hids. by apply Hids.
    - rewrite Forall_forall in Hothers. rewrite (Hothers i Hi) in Hs. done. }
  destruct (downloaded_total (Regex.id_file prefix) listing) as [ds Hds].
  { intros i Hi Hs. destruct (Hmatch i Hi Hs) as (j & _ & _ & Hj). by exists j. }
  unfold check_missing. rewrite Hds. simpl. unfold mret, result_ret. f_equal.
  apply list_filter_iff. intros j.
  rewrite (downloaded_elem _ _ _ Hds). split.
  - intros Hnot Hj. apply Hnot. exists (id_fname prefix j).
    rewrite Forall_forall in Hids. pose proof (Hids j Hj).
    split_and!.
    + rewrite Hperm. apply elem_of_app. left.
      apply list_elem_of_fmap. by exists j.
    + apply id_fname_search. lia.
    + by apply file_id_six.
  - intros Hnot (i & Hi & Hs & Hz).
    destruct (Hmatch i Hi Hs) as (j' & Hj' & _ & Hid). congruence.
Qed.

Lemma check_missing_six_digit_directory_witness :
  check_missing 633000 633005
    ["defendant633003.html"; "defendant633001.html"; "notes.txt"]
    (Regex.id_file "defendant")
  = Ok (filter (λ j, j ∉ [633003; 633001]) (py_range 633000 633005)).
Proof.
  apply (check_missing_six_digit_directory "defendant" 633000 633005 _
           ["notes.txt"] [633003; 633001]).
  - repeat constructor; lia.
  - repeat constructor.
  - reflexivity.
Defined.

(** ** The directory on disk *)

Lemma strip_prefix_spec p k n : strip_prefix p k = Some n ↔ k = p +:+ n.
Proof.
  revert k. induction p as [|a p IH]; intros k; simpl.
  - split; [by intros [= ->]|by intros ->].
  - destruct k as [|b k]; [done|].
    unfold String.append; fold String.append.
    destruct (Ascii.eqb_spec a b) as [->|Hne].
    + rewrite IH. split; [by intros ->|by intros [= ->]].
    + split; [done|]. intros [= ? _]. done.
Qed.

Lemma elem_of_os_listdir fs path n :
  n ∈ os_listdir fs path ↔
  is_Some (fs !! (path +:+ n)) ∧ PyStr.contains "/" n = false.
Proof.
  unfold os_listdir. rewrite list_elem_of_omap. split.
  - intros (k & Hk & Hn). apply elem_of_elements, elem_of_dom in Hk.
    destruct (strip_prefix path k) as [n'|] eqn:Hstrip; simpl in Hn; [|done].
    apply strip_prefix_spec in Hstrip as ->.
    destruct (PyStr.contains "/" n') eqn:Hslash; [done|].
    by injection Hn as <-.
  - intros [Hfile Hslash]. exists (path +:+ n). split.
    + by apply elem_of_elements, elem_of_dom.
    + rewrite (proj2 (strip_prefix_spec path (path +:+ n) n) eq_refl).
      simpl. by rewrite Hslash.
Qed.

Lemma contains_slash_false s :
  Forall (λ c, c ≠ "/"%char) (PyStr.chars s) → PyStr.contains "/" s = false.
Proof.
  induction s as [|c s IH]; intros H; [done|].
  apply Forall_cons in H as [Hc Hs].
  change (PyStr.contains "/" (String c s))
    with (String.prefix "/" (String c s) || PyStr.contains "/" s).
  rewrite IH by done. rewrite orb_false_r.
  change (String.prefix "/" (String c s))
    with (if Ascii.ascii_dec "/" c then String.prefix "" s else false).
  destruct (Ascii.ascii_dec "/" c) as [<-|Hne]; [done|reflexivity].
Qed.

Lemma id_fname_no_slash j :
  0 ≤ j → PyStr.contains "/" (id_fname "defendant" j) = false.
Proof.
  intros Hj. apply contains_slash_false. unfold id_fname.
  rewrite !RegexFacts.chars_app. rewrite !Forall_app. split_and!.
  - repeat constructor; done.
  - destruct (of_int_digits j Hj) as [_ Hds].
    eapply Forall_impl; [exact Hds|]. intros c Hc ->. done.
  - repeat constructor; done.
Qed.

Section Disk.

Variable defendant_path : string.
Variable shuffle : list Z → list Z.
Hypothesis shuffle_perm : ∀ l, shuffle l ≡ₚ l.

Local Abbreviation defendant_fname := (defendant_fname defendant_path).
Local Abbreviation check_missing_defendants :=
  (check_missing_defendants defendant_path).
Local Abbreviation munch_work_list := (munch_work_list defendant_path shuffle).

Lemma defendant_fname_id_fname j :
  defendant_fname j = defendant_path +:+ id_fname "defendant" j.
Proof. reflexivity. Qed.

(** X8: for a range that starts at a non-negative ID and a defendant
    directory whose matching files are well named, the defendants
    [check_missing_defendants] reports are exactly those of the range
    with no file on disk. *)
Theorem missing_defendants_on_disk (start stop : Z) (s : State) :
  0 ≤ start →
  well_named "defendant" (os_listdir (files s) defendant_path) = true →
  ∃ missing, check_missing_defendants start stop s = Ok missing ∧
    ∀ j, j ∈ missing ↔
         start ≤ j < stop ∧ files s !! defendant_fname j = None.
Proof.
  intros Hstart Hwn.
  destruct (check_missing_well_named "defendant" start stop _ Hstart Hwn)
    as (missing & Hm & _ & Hin).
  exists missing. split; [exact Hm|]. intros j. rewrite Hin.
  split; intros [Hj H]; (split; [done|]).
  - destruct (files s !! defendant_fname j) as [b|] eqn:Hfile; [|done].
    destruct H. apply elem_of_os_listdir. split.
    + rewrite <-defendant_fname_id_fname, Hfile. by eexists.
    + apply id_fname_no_slash. lia.
  - intros [[b Hb] _]%elem_of_os_listdir.
    rewrite <-defendant_fname_id_fname in Hb. congruence.
Qed.

(** X9: the work list of a run never names a defendant twice and never
    one outside [start, stop). *)
Theorem work_list_in_range (start stop : Z) (s : State) (work : list Z) :
  munch_work_list start stop s = Ok work →
  NoDup work ∧ ∀ d, d ∈ work → start ≤ d < stop.
Proof.
  unfold munch_work_list.
  destruct (check_defendant_range_downloaded defendant_path start stop s)
    as [[|]|e]; simpl; [| |done].
  - unfold check_missing_defendants, check_missing.
    destruct (downloaded _ _); simpl; [|done]. intros [= <-]. split.
    + apply NoDup_filter, NoDup_seqZ.
    + intros d [_ Hd%elem_of_seqZ]%list_elem_of_filter. lia.
  - intros [= <-]. split.
    + rewrite shuffle_perm. apply NoDup_seqZ.
    + intros d. rewrite shuffle_perm. intros Hd%elem_of_seqZ. lia.
Qed.

(** X10: on a directory with no file that matches the defendant pattern,
    an empty one included, the run takes the whole range, shuffled. *)
Theorem first_run_takes_full_range (start stop : Z) (s : State) :
  Forall (λ n, Regex.search defendant_pattern n = false)
         (os_listdir (files s) defendant_path) →
  munch_work_list start stop s = Ok (shuffle (py_range start stop)).
Proof.
  intros Hnone. unfold munch_work_list, check_defendant_range_downloaded,
    check_range_downloaded.
  assert (downloaded defendant_pattern (os_listdir (files s) defendant_path)
          = Ok []) as ->.
  { induction Hnone as [|n l Hn _ IH]; [done|]. simpl. by rewrite Hn. }
  reflexivity.
Qed.

End Disk.

Lemma missing_defendants_on_disk_witness :
  ∃ missing,
    check_missing_defendants "defendants/" 100000 100010
      (init_state false
         (defendant_files "defendants/" [100000; 100004; 100007]))
    = Ok missing ∧
    ∀ j, j ∈ missing ↔
         100000 ≤ j < 100010 ∧
         defendant_files "defendants/" [100000; 100004; 100007]
           !! defendant_fname "defendants/" j = None.
Proof.
  apply (missing_defendants_on_disk "defendants/" 100000 100010
           (init_state false
              (defendant_files "defendants/" [100000; 100004; 100007]))).
  - lia.
  - vm_compute. reflexivity.
Defined.

Lemma work_list_in_range_witness :
  NoDup [100001; 100002; 100003; 100005; 100006; 100008; 100009] ∧
  ∀ d, d ∈ [100001; 100002; 100003; 100005; 100006; 100008; 100009] →
       100000 ≤ d < 100010.
Proof.
  apply (work_list_in_range "defendants/" id (λ l, reflexivity l)
           100000 100010
           (init_state false
              (defendant_files "defendants/" [100000; 100004; 100007]))).
  vm_compute. reflexivity.
Defined.

Lemma first_run_takes_full_range_witness :
  munch_work_list "defendants/" id 633000 633003
    (init_state false {[ "defendants/notes.txt" := [] ]})
  = Ok [633000; 633001; 633002].
Proof.
  apply (first_run_takes_full_range "defendants/" id 633000 633003
           (init_state false {[ "defendants/notes.txt" := [] ]})).
  apply (bool_decide_unpack _). vm_compute. exact I.
Defined.

(** ** One task, run to completion *)

Lemma run_alone_bind {A B} (m : coro A) (g : A → coro B) s :
  run_alone (m ≫= g) s =
    match run_alone m s with
    | (s', Ok a) => run_alone (g a) s'
    | (s', Err e) => (s', Err e)
    end.
Proof.
  revert s. unfold mbind, coro_mbind.
  induction m as [a|e|f k IH|k IH|k IH]; intros s; simpl; auto.
Qed.

Lemma run_alone_catch {A} (m : coro A) (h : exn → coro A) s :
  run_alone (catch m h) s =
    match run_alone m s with
    | (s', Ok a) => (s', Ok a)
    | (s', Err e) => run_alone (h e) s'
    end.
Proof.
  revert s. induction m as [a|e|f k IH|k IH|k IH]; intros s; simpl; auto.
Qed.

Lemma links_set_links l s : links (set_links l s) = l.
Proof. reflexivity. Qed.
Lemma links_set_files f s : links (set_files f s) = links s.
Proof. reflexivity. Qed.
Lemma links_set_failed_urls l s : links (set_failed_urls l s) = links s.
Proof. reflexivity. Qed.
Lemma files_set_links l s : files (set_links l s) = files s.
Proof. reflexivity. Qed.
Lemma files_set_files f s : files (set_files f s) = f.
Proof. reflexivity. Qed.
Lemma files_set_failed_urls l s : files (set_failed_urls l s) = files s.
Proof. reflexivity. Qed.
Lemma failed_urls_set_links l s :
  failed_urls (set_links l s) = failed_urls s.
Proof. reflexivity. Qed.
Lemma failed_urls_set_files f s :
  failed_urls (set_files f s) = failed_urls s.
Proof. reflexivity. Qed.
Lemma handles_set_links l s : handles (set_links l s) = handles s.
Proof. reflexivity. Qed.
Lemma handles_set_files f s : handles (set_files f s) = handles s.
Proof. reflexivity. Qed.
Lemma handles_set_failed_urls l s :
  handles (set_failed_urls l s) = handles s.
Proof. reflexivity. Qed.
Lemma requests_set_links l s : requests (set_links l s) = requests s.
Proof. reflexivity. Qed.
Lemma requests_set_files f s : requests (set_files f s) = requests s.
Proof. reflexivity. Qed.

Section TaskRuns.

Variables defendant_path docket_path log_file : string.
Variable strftime : nat → string.
Variable http_get : nat → string → result string.
Variable html_parser : string → Soup.
Variable write_fault : string → option exn.

Local Abbreviation log := (log log_file strftime).
Local Abbreviation download_defendant_data :=
  (download_defendant_data defendant_path log_file strftime http_get
                           html_parser write_fault).
Local Abbreviation download_sheet_data :=
  (download_sheet_data docket_path log_file strftime http_get write_fault).
Local Abbreviation defendant_fname := (defendant_fname defendant_path).
Local Abbreviation docket_fname := (docket_fname docket_path).

Local Abbreviation download_item := (download_item log_file strftime http_get).
Local Abbreviation download_defendant :=
  (download_defendant log_file strftime http_get html_parser).
Local Abbreviation write_data := (write_data log_file strftime write_fault).
Local Abbreviation fetched := (fetched log_file strftime).

Lemma links_fetched item url outcome s :
  links (fetched item url outcome s) = links s.
Proof. unfold fetched. simpl. apply links_log. Qed.

Lemma failed_urls_fetched item url outcome s :
  failed_urls (fetched item url outcome s) = failed_urls s.
Proof. unfold fetched. simpl. apply failed_urls_log. Qed.

Lemma handles_fetched item url outcome s :
  handles (fetched item url outcome s) = handles s.
Proof. unfold fetched. simpl. apply handles_log. Qed.

Lemma requests_fetched item url outcome s :
  requests (fetched item url outcome s) = requests s ++ [url].
Proof. unfold fetched. simpl. rewrite ?requests_log. reflexivity. Qed.

Lemma files_fetched_other item url outcome s p :
  p ≠ log_file → files (fetched item url outcome s) !! p = files s !! p.
Proof. intros Hp. unfold fetched. simpl. by apply files_log_other. Qed.

Ltac project_state :=
  rewrite ?links_set_links, ?links_set_files, ?links_set_failed_urls,
    ?files_set_links, ?files_set_files, ?files_set_failed_urls,
    ?failed_urls_set_links, ?failed_urls_set_files,
    ?handles_set_links, ?handles_set_files, ?handles_set_failed_urls,
    ?requests_set_links, ?requests_set_files,
    ?links_log, ?failed_urls_log, ?handles_log, ?requests_log,
    ?links_fetched, ?failed_urls_fetched, ?handles_fetched,
    ?requests_fetched.

Lemma download_item_ok url_root item s text :
  http_get (length (requests s)) (url_root +:+ item) = Ok text →
  run_alone (download_item url_root item) s
    = (fetched item (url_root +:+ item) (Ok text) s, Ok (Some text)).
Proof.
  intros Hget. unfold download_item, fetched. simpl.
  rewrite requests_log, Hget. reflexivity.
Qed.

Lemma download_item_recovered url_root item s e :
  http_get (length (requests s)) (url_root +:+ item) = Err e →
  Exn.is_timeout_or_client e = true →
  let s1 := fetched item (url_root +:+ item) (Err e) s in
  run_alone (download_item url_root item) s
    = (set_failed_urls (failed_urls s ++ [url_root +:+ item])
         (log ("Timeout/ClientError downloading item " +:+ (url_root +:+ item)
               +:+ ": " +:+ Exn.type_repr e) s1),
       Ok None).
Proof.
  intros Hget He s1. subst s1. unfold download_item, fetched. simpl.
  rewrite requests_log, Hget. simpl. rewrite He. simpl.
  rewrite !failed_urls_log. simpl. rewrite failed_urls_log. reflexivity.
Qed.

Lemma write_data_ok data fname s :
  truthy data = true → write_fault fname = None →
  let s1 := log ("Writing " +:+ fname +:+ " of length: "
                 +:+ PyStr.of_nat (PyStr.len (py_str data))) s in
  run_alone (write_data data fname) s
    = (set_files (<[fname := PyStr.utf8 (py_str data)]> (files s1)) s1, Ok tt).
Proof.
  intros Hdata Hfault s1. subst s1.
  unfold write_data, with_open_wb, file_write. simpl.
  rewrite Hdata, Hfault. simpl.
  unfold close_file, write_bytes, open_wb. simpl.
  rewrite decide_True by done. rewrite insert_insert_eq. reflexivity.
Qed.

Lemma nonempty_truthy text : text ≠ "" → negb (String.eqb text "") = true.
Proof. intros H. apply negb_true_iff, String.eqb_neq. exact H. Qed.

Lemma defendant_task_fetched_run d s s1 text :
  run_alone (download_item def_url (PyStr.of_int d)) s = (s1, Ok (Some text)) →
  text ≠ "" → write_fault (defendant_fname d) = None →
  let soup := html_parser text in
  let s2 := log ("Writing " +:+ defendant_fname d +:+ " of length: "
                 +:+ PyStr.of_nat (PyStr.len (soup_str soup))) s1 in
  let s3 := set_files (<[defendant_fname d := PyStr.utf8 (soup_str soup)]>
                         (files s2)) s2 in
  run_alone (download_defendant_data d) s =
    match get_defendant_case_links soup with
    | Ok found => (set_links (links s3 ∪ found) s3, Ok tt)
    | Err e =>
        (log ("Exception with defendant " +:+ PyStr.of_int d +:+ ": "
              +:+ Exn.type_repr e) s3, Err e)
    end.
Proof.
  intros Hitem Htext Hfault soup s2 s3.
  unfold download_defendant_data, download_defendant.
  rewrite run_alone_catch, !run_alone_bind, Hitem.
  unfold str_truthy, truthy. rewrite (nonempty_truthy _ Htext).
  change (run_alone (mret (html_parser <$> Some text)) s1)
    with (s1, Ok (Some soup)).
  cbv beta iota. rewrite run_alone_bind.
  rewrite (write_data_ok (PSoup soup) (defendant_fname d) s1 eq_refl Hfault).
  fold s2 s3. cbv beta iota.
  destruct (get_defendant_case_links soup) as [found|e]; reflexivity.
Qed.

(** X11: a defendant task whose GET returns a non-empty page, whose write
    succeeds and whose anchors all have an [href]: the page is on disk
    under the name of the defendant, the docket links of the page have
    joined the link set, and nothing is recorded as failed. *)
Theorem defendant_task_saves_page (d : Z) (s : State) (text : string)
    (found : gset string) :
  let url := def_url +:+ PyStr.of_int d in
  let s' := (run_alone (download_defendant_data d) s).1 in
  http_get (length (requests s)) url = Ok text → text ≠ "" →
  write_fault (defendant_fname d) = None →
  get_defendant_case_links (html_parser text) = Ok found →
  (run_alone (download_defendant_data d) s).2 = Ok tt ∧
  files s' !! defendant_fname d
    = Some (PyStr.utf8 (soup_str (html_parser text))) ∧
  links s' = links s ∪ found ∧
  failed_urls s' = failed_urls s ∧
  handles s' = handles s ∧
  requests s' = requests s ++ [url].
Proof.
  intros url s' Hget Htext Hfault Hlinks. subst s'.
  rewrite (defendant_task_fetched_run d s _ text
             (download_item_ok _ _ _ _ Hget) Htext Hfault), Hlinks.
  unfold fst, snd. repeat project_state. rewrite lookup_insert_eq.
  split_and!; reflexivity.
Qed.

(** X12: when the GET times out, fails in the client, or returns an
    empty body, the defendant task ends normally without creating a file
    and without touching the link set. *)
Theorem defendant_task_without_page (d : Z) (s : State) :
  let url := def_url +:+ PyStr.of_int d in
  let s' := (run_alone (download_defendant_data d) s).1 in
  match http_get (length (requests s)) url with
  | Ok text => text = ""
  | Err e => Exn.is_timeout_or_client e = true
  end →
  (run_alone (download_defendant_data d) s).2 = Ok tt ∧
  (∀ p, p ≠ log_file → files s' !! p = files s !! p) ∧
  links s' = links s ∧ handles s' = handles s.
Proof.
  intros url s' Hget. subst s'.
  unfold download_defendant_data, download_defendant.
  rewrite run_alone_catch, !run_alone_bind.
  destruct (http_get (length (requests s)) url) as [text|e] eqn:Hout.
  - subst text. rewrite (download_item_ok _ _ _ _ Hout).
    change (str_truthy (Some "")) with false. cbv beta iota.
    change (run_alone (mret None) ?x) with (x, Ok (@None Soup)).
    cbv beta iota.
    change (run_alone (mret tt) ?x) with (x, Ok tt).
    unfold fst, snd. repeat project_state.
    split_and!; try reflexivity. intros p Hp. by apply files_fetched_other.
  - rewrite (download_item_recovered _ _ _ _ Hout Hget).
    change (str_truthy None) with false. cbv beta iota.
    change (run_alone (mret None) ?x) with (x, Ok (@None Soup)).
    cbv beta iota.
    change (run_alone (mret tt) ?x) with (x, Ok tt).
    unfold fst, snd. repeat project_state.
    split_and!; try reflexivity. intros p Hp.
    project_state. rewrite files_log_other by done.
    by apply files_fetched_other.
Qed.

(** X13: a page with an anchor that has no [href] is written to disk
    all the same; its links are lost and the task raises the
    [KeyError]. *)
Theorem defendant_task_anchor_without_href (d : Z) (s : State) (text : string)
    (e : exn) :
  let url := def_url +:+ PyStr.of_int d in
  let s' := (run_alone (download_defendant_data d) s).1 in
  http_get (length (requests s)) url = Ok text → text ≠ "" →
  write_fault (defendant_fname d) = None →
  get_defendant_case_links (html_parser text) = Err e →
  (run_alone (download_defendant_data d) s).2 = Err e ∧
  (defendant_fname d ≠ log_file →
   files s' !! defendant_fname d
     = Some (PyStr.utf8 (soup_str (html_parser text)))) ∧
  links s' = links s.
Proof.
  intros url s' Hget Htext Hfault Hlinks. subst s'.
  rewrite (defendant_task_fetched_run d s _ text
             (download_item_ok _ _ _ _ Hget) Htext Hfault), Hlinks.
  unfold fst, snd. repeat project_state.
  split_and!; try reflexivity.
  intros Hne. rewrite files_log_other by done.
  project_state. by rewrite lookup_insert_eq.
Qed.

Lemma sheet_task_run (link : string) (s : State) (text : string) :
  let url := sheet_url +:+ link in
  let s' := (run_alone (download_sheet_data link) s).1 in
  http_get (length (requests s)) url = Ok text → text ≠ "" →
  write_fault (docket_fname link) = None →
  (run_alone (download_sheet_data link) s).2 = Ok tt ∧
  files s' !! docket_fname link = Some (PyStr.utf8 text) ∧
  links s' = links s ∧
  requests s' = requests s ++ [url].
Proof.
  intros url s' Hget Htext Hfault. subst s'.
  unfold download_sheet_data, download_sheet.
  rewrite run_alone_catch, run_alone_bind, (download_item_ok _ _ _ _ Hget).
  unfold str_truthy, truthy. rewrite (nonempty_truthy _ Htext).
  cbv beta iota.
  rewrite (write_data_ok (PStr text) (docket_fname link) _
             (nonempty_truthy _ Htext) Hfault).
  change (py_str (PStr text)) with text.
  unfold fst, snd. repeat project_state. rewrite lookup_insert_eq.
  split_and!; reflexivity.
Qed.

(** X14: a sheet task whose GET returns a non-empty text and whose write
    succeeds leaves that text, UTF-8 encoded, in the file named after the
    last six characters of the link. *)
Theorem sheet_task_saves_sheet (link : string) (s : State) (text : string) :
  let s' := (run_alone (download_sheet_data link) s).1 in
  http_get (length (requests s)) (sheet_url +:+ link) = Ok text →
  text ≠ "" →
  write_fault (docket_fname link) = None →
  (run_alone (download_sheet_data link) s).2 = Ok tt ∧
  files s' !! (docket_path +:+ "docket" +:+ PyStr.take_last 6 link
               +:+ ".html")
    = Some (PyStr.utf8 text).
Proof.
  intros s' Hget Htext Hfault.
  destruct (sheet_task_run link s text Hget Htext Hfault) as (Hr & Hf & _).
  split; [exact Hr|exact Hf].
Qed.

(** X15: two links that end in the same six characters share a file:
    when both sheets are fetched, one after the other, the file holds the
    second sheet only. *)
Theorem sheets_with_same_suffix_collide (link1 link2 : string) (s : State)
    (text1 text2 : string) :
  let s1 := (run_alone (download_sheet_data link1) s).1 in
  let s2 := (run_alone (download_sheet_data link2) s1).1 in
  PyStr.take_last 6 link1 = PyStr.take_last 6 link2 →
  http_get (length (requests s)) (sheet_url +:+ link1) = Ok text1 →
  http_get (S (length (requests s))) (sheet_url +:+ link2) = Ok text2 →
  text1 ≠ "" → text2 ≠ "" →
  write_fault (docket_fname link1) = None →
  files s1 !! docket_fname link1 = Some (PyStr.utf8 text1) ∧
  docket_fname link2 = docket_fname link1 ∧
  files s2 !! docket_fname link1 = Some (PyStr.utf8 text2).
Proof.
  intros s1 s2 Hsuffix Hget1 Hget2 Htext1 Htext2 Hfault.
  assert (Hname : docket_fname link2 = docket_fname link1).
  { unfold docket_fname. by rewrite Hsuffix. }
  destruct (sheet_task_run link1 s text1 Hget1 Htext1 Hfault)
    as (_ & Hf1 & _ & Hreq1).
  fold s1 in Hf1, Hreq1.
  destruct (sheet_task_run link2 s1 text2) as (_ & Hf2 & _).
  - rewrite Hreq1, length_app. simpl.
    by rewrite Nat.add_1_r.
  - done.
  - by rewrite Hname.
  - fold s2 in Hf2. rewrite Hname in Hf2. done.
Qed.

End TaskRuns.

Lemma defendant_task_saves_page_witness :
  files (run_alone (Demo.defendant_task 100000) Demo.s0).1
    !! "defendants/defendant100000.html"
  = Some (PyStr.utf8 "<a href='666666.php?&docase=111111'>1</a>").
Proof.
  refine (proj1 (proj2 (defendant_task_saves_page "defendants/" "log.txt"
            Demo.strftime Demo.http_get Demo.html_parser Demo.no_fault
            100000 Demo.s0 "<a href='666666.php?&docase=111111'>1</a>"
            {[ "666666.php?&docase=111111" ]} _ _ _ _))).
  - vm_compute. reflexivity.
  - discriminate.
  - reflexivity.
  - vm_compute. reflexivity.
Defined.

Lemma defendant_task_without_page_witness :
  (run_alone (Demo.defendant_task 100001) Demo.s0).2 = Ok tt.
Proof.
  refine (proj1 (defendant_task_without_page "defendants/" "log.txt"
            Demo.strftime Demo.http_get Demo.html_parser Demo.no_fault
            100001 Demo.s0 _)).
  vm_compute. reflexivity.
Defined.

Lemma defendant_task_anchor_without_href_witness :
  (run_alone
     (download_defendant_data "defendants/" "log.txt" Demo.strftime
        Demo.http_get (λ text, mkSoup text [ {[ "name" := "top" ]} ])
        Demo.no_fault 100000) Demo.s0).2
  = Err (Exn.KeyError "href").
Proof.
  refine (proj1 (defendant_task_anchor_without_href "defendants/" "log.txt"
            Demo.strftime Demo.http_get
            (λ text, mkSoup text [ {[ "name" := "top" ]} ]) Demo.no_fault
            100000 Demo.s0 "<a href='666666.php?&docase=111111'>1</a>"
            (Exn.KeyError "href") _ _ _ _)).
  - vm_compute. reflexivity.
  - discriminate.
  - reflexivity.
  - vm_compute. reflexivity.
Defined.

Lemma sheet_task_saves_sheet_witness :
  files (run_alone
           (download_sheet_data "dockets/" "log.txt" Demo.strftime
              Demo.http_get Demo.no_fault "666666.php?&docase=111111")
           Demo.s0).1
    !! "dockets/docket111111.html"
  = Some (PyStr.utf8 "<a href='666666.php?&docase=111111'>1</a>").
Proof.
  refine (proj2 (sheet_task_saves_sheet "dockets/" "log.txt" Demo.strftime
            Demo.http_get Demo.no_fault "666666.php?&docase=111111" Demo.s0
            "<a href='666666.php?&docase=111111'>1</a>" _ _ _)).
  - vm_compute. reflexivity.
  - discriminate.
  - reflexivity.
Defined.

Lemma sheets_with_same_suffix_collide_witness :
  docket_fname "dockets/" "777777.php?&docase=111111"
  = docket_fname "dockets/" "666666.php?&docase=111111".
Proof.
  refine (proj1 (proj2 (sheets_with_same_suffix_collide "dockets/" "log.txt"
            Demo.strftime Demo.http_get Demo.no_fault
            "666666.php?&docase=111111" "777777.php?&docase=111111" Demo.s0
            "<a href='666666.php?&docase=111111'>1</a>"
            "<a href='666666.php?&docase=111111'>1</a>" _ _ _ _ _ _))).
  - vm_compute. reflexivity.
  - vm_compute. reflexivity.
  - vm_compute. reflexivity.
  - discriminate.
  - discriminate.
  - reflexivity.
Defined.

(** ** Whole runs, under every schedule *)

#[global] Instance quiet_preorder : PreOrder quiet.
Proof.
  split; [by intros s Hv|].
  intros s1 s2 s3 H1 H2 Hv. destruct (H1 Hv) as [Hv2 Ho2].
  destruct (H2 Hv2) as [Hv3 Ho3]. split; [done|congruence].
Qed.

#[global] Instance only_case_links_preorder : PreOrder only_case_links.
Proof.
  split.
  - intros s H. exact H.
  - intros s1 s2 s3 H1 H2 H. apply H2, H1, H.
Qed.

Lemma utf8_app (a b : string) :
  PyStr.utf8 (a +:+ b) = PyStr.utf8 a ++ PyStr.utf8 b.
Proof. unfold PyStr.utf8. by rewrite RegexFacts.chars_app, bind_app. Qed.

Lemma app_empty_str (a : string) : a +:+ "" = a.
Proof.
  induction a as [|c a IH]; [done|].
  unfold String.append; fold String.append. by rewrite IH.
Qed.

Lemma render_app es1 es2 : render (es1 ++ es2) = render es1 +:+ render es2.
Proof.
  unfold render, PyStr.join. induction es1 as [|e es1 IH]; [done|].
  rewrite <-app_comm_cons, !fmap_cons. cbn [foldr]. rewrite IH.
  by rewrite !app_assoc_str.
Qed.

Lemma utf8_render_app es1 es2 :
  PyStr.utf8 (render (es1 ++ es2))
    = PyStr.utf8 (render es1) ++ PyStr.utf8 (render es2).
Proof. by rewrite render_app, utf8_app. Qed.

#[global] Instance appends_log_preorder log_file :
  PreOrder (appends_log log_file).
Proof.
  split.
  - intros s. exists []. by rewrite app_nil_r.
  - intros s1 s2 s3 [a1 E1] [a2 E2]. exists (a1 ++ a2).
    by rewrite E2, E1, utf8_render_app, app_assoc.
Qed.

#[global] Instance both_preorder G1 G2 `{!PreOrder G1, !PreOrder G2} :
  PreOrder (both G1 G2).
Proof.
  split.
  - intros s. split; reflexivity.
  - intros s1 s2 s3 [??] [??]. split; by etrans.
Qed.

Lemma seg_both {A} G1 G2 (m : coro A) s0 s :
  seg G1 m (λ _, G1) s0 s → seg G2 m (λ _, G2) s0 s →
  seg (both G1 G2) m (λ _, both G1 G2) s0 s.
Proof.
  revert s0 s. induction m as [a|e|f k IH|k IH|k IH]; intros s0 s; simpl.
  - by split.
  - by split.
  - apply IH.
  - apply IH.
  - intros [H1 K1] [H2 K2]. split; [by split|]. intros s1. by apply IH.
Qed.

Lemma fan_out_keeps G `{!PreOrder G} sched (ms : list task) s s' r :
  Forall (λ m, ∀ s1, seg G m (λ _, G) s1 s1) ms →
  gather sched ms s = Some (s', r) → G s s'.
Proof.
  intros Hms [pool' Hrun]%gather_inv.
  by destruct (gather_run_keeps G _ _ _ _ _ _ (spawn_keeps G ms Hms) Hrun).
Qed.

Lemma case_links_found soup found :
  get_defendant_case_links soup = Ok found → ∀ l, l ∈ found → case_link l.
Proof.
  unfold get_defendant_case_links.
  destruct (hrefs_of (soup_anchors soup)) as [hrefs|e]; simpl; [|done].
  intros [= <-] l. rewrite elem_of_list_to_set, list_elem_of_filter.
  unfold case_link. rewrite Is_true_true. tauto.
Qed.

Section Invariants.

Variables defendant_path docket_path log_file : string.
Variable strftime : nat → string.
Variable http_get : nat → string → result string.
Variable html_parser : string → Soup.
Variable shuffle : list Z → list Z.
Variable write_fault : string → option exn.
Hypothesis shuffle_perm : ∀ l, shuffle l ≡ₚ l.

Local Abbreviation log := (log log_file strftime).
Local Abbreviation write_log := (write_log log_file).
Local Abbreviation entry := (entry strftime).
Local Abbreviation download_defendant_data :=
  (download_defendant_data defendant_path log_file strftime http_get
                           html_parser write_fault).
Local Abbreviation download_sheet_data :=
  (download_sheet_data docket_path log_file strftime http_get write_fault).
Local Abbreviation defendant_fname := (defendant_fname defendant_path).
Local Abbreviation docket_fname := (docket_fname docket_path).
Local Abbreviation munch_defendants :=
  (munch_defendants defendant_path docket_path log_file strftime http_get
                    html_parser write_fault).
Local Abbreviation munch_work_list := (munch_work_list defendant_path shuffle).
Local Abbreviation munch_body :=
  (munch_body defendant_path docket_path log_file strftime http_get
              html_parser shuffle write_fault).
Local Abbreviation munch :=
  (munch defendant_path docket_path log_file strftime http_get
         html_parser shuffle write_fault).
Local Abbreviation log_stream := (log_stream log_file).
Local Abbreviation appends_log := (appends_log log_file).

Ltac unfold_tasks :=
  unfold download_defendant_data, download_sheet_data, download_defendant,
    download_sheet, download_item, session_get, write_data, with_open_wb,
    file_write, call, await.

(** *** What a run keeps, given what its tasks keep *)

Lemma munch_work_list_range start stop s work :
  munch_work_list start stop s = Ok work → ∀ d, d ∈ work → start ≤ d < stop.
Proof.
  unfold munch_work_list.
  destruct (check_defendant_range_downloaded defendant_path start stop s)
    as [[|]|e]; simpl; [| |done].
  - unfold check_missing_defendants, check_missing.
    destruct (downloaded _ _); simpl; [|done]. intros [= <-].
    intros d [_ Hd%elem_of_seqZ]%list_elem_of_filter. lia.
  - intros [= <-] d. rewrite shuffle_perm. intros Hd%elem_of_seqZ. lia.
Qed.

Lemma munch_defendants_keeps G `{!PreOrder G} defendants sched1 sched2 s s' r :
  (∀ m s0 s1, G s0 s1 → G s0 (log m s1)) →
  (∀ s0 s1, G s0 s1 → G s0 (set_links ∅ s1)) →
  (∀ d, d ∈ defendants →
        ∀ s1, seg G (download_defendant_data d) (λ _, G) s1 s1) →
  (∀ s2 l, G s s2 → l ∈ links s2 →
           ∀ s1, seg G (download_sheet_data l) (λ _, G) s1 s1) →
  munch_defendants defendants sched1 sched2 s = Some (s', r) → G s s'.
Proof.
  intros Hlog Hreset Hdef Hsheet. unfold munch_defendants.
  destruct (gather sched1 _ _) as [[s2 r1]|] eqn:H1; simpl; [|done].
  assert (G0 : G s s2).
  { etrans; [apply Hlog; reflexivity|].
    eapply fan_out_keeps; [done| |exact H1].
    rewrite Forall_fmap, Forall_forall. intros d Hd s0. by apply Hdef. }
  destruct r1 as [[]|e1]; [|by intros [= <- <-]].
  destruct (gather sched2 _ _) as [[s3 r2]|] eqn:H2; simpl; [|done].
  assert (G3 : G s s3).
  { etrans; [exact G0|]. eapply fan_out_keeps; [done| |exact H2].
    rewrite Forall_fmap, Forall_forall. intros l Hl%elem_of_elements s0.
    by eapply Hsheet. }
  destruct r2 as [[]|e2]; intros [= <- <-]; [|done].
  by apply Hlog, Hreset.
Qed.

Lemma munch_keeps G `{!PreOrder G} start stop v sched1 sched2 s s_fin :
  (∀ m s0 s1, G s0 s1 → G s0 (log m s1)) →
  (∀ s0 s1, G s0 s1 → G s0 (write_log s1)) →
  (∀ s0 s1, G s0 s1 → G s0 (set_links ∅ s1)) →
  (∀ d, start ≤ d < stop →
        ∀ s1, seg G (download_defendant_data d) (λ _, G) s1 s1) →
  (∀ s2 l, G (set_verbose v s) s2 → l ∈ links s2 →
           ∀ s1, seg G (download_sheet_data l) (λ _, G) s1 s1) →
  munch start stop v sched1 sched2 s = Some s_fin →
  G (set_verbose v s) s_fin.
Proof.
  intros Hlog Hflush Hreset Hdef Hsheet. unfold munch.
  destruct (munch_body start stop sched1 sched2 (set_verbose v s))
    as [[s1 r]|] eqn:Hbody; simpl; [|done].
  assert (G1 : G (set_verbose v s) s1).
  { revert Hbody. unfold munch_body, munch_missing.
    pose proof (munch_work_list_range start stop (set_verbose v s)) as Hrange.
    unfold munch_work_list in Hrange.
    destruct (check_defendant_range_downloaded _ _ _ _) as [[|]|e]; simpl in *.
    - destruct (check_missing_defendants _ _ _ _) as [work|e].
      + apply munch_defendants_keeps; try done.
        intros d Hd. apply Hdef. by apply (Hrange work).
      + intros [= <- <-]. reflexivity.
    - apply munch_defendants_keeps; try done.
      intros d Hd. apply Hdef. by eapply Hrange.
    - intros [= <- <-]. reflexivity. }
  destruct r as [[]|e]; intros [= <-].
  - by apply Hflush.
  - by apply Hflush, Hflush, Hlog.
Qed.

(** *** Nothing is printed unless asked *)

Lemma quiet_neutral (f : State → State) s0 s :
  verbose (f s) = verbose s → stdout (f s) = stdout s →
  quiet s0 s → quiet s0 (f s).
Proof. intros Hv Ho H H0. rewrite Hv, Ho. by apply H. Qed.

Lemma quiet_log message s0 s : quiet s0 s → quiet s0 (log message s).
Proof.
  intros H H0. destruct (H H0) as [Hv Ho]. rewrite verbose_log.
  split; [done|]. rewrite <-Ho. unfold log, now. rewrite Hv. simpl.
  by destruct (log_len s >? 100000).
Qed.

Ltac quiet_leaf :=
  unfold open_wb, write_bytes, close_file;
  repeat first [ reflexivity
               | apply quiet_log
               | apply quiet_neutral; [reflexivity|reflexivity|] ].

Lemma defendant_task_quiet d s1 :
  seg quiet (download_defendant_data d) (λ _, quiet) s1 s1.
Proof. unfold_tasks. seg_walk quiet_leaf. Qed.

Lemma sheet_task_quiet link s1 :
  seg quiet (download_sheet_data link) (λ _, quiet) s1 s1.
Proof. unfold_tasks. seg_walk quiet_leaf. Qed.

(** *** The links a run follows *)

Lemma only_case_links_neutral (f : State → State) s0 s :
  links (f s) = links s → only_case_links s0 s → only_case_links s0 (f s).
Proof. intros Hl H H0. rewrite Hl. by apply H. Qed.

Lemma only_case_links_log message s0 s :
  only_case_links s0 s → only_case_links s0 (log message s).
Proof. intros H H0. rewrite links_log. by apply H. Qed.

Lemma only_case_links_union found s0 s s1 :
  (∀ l, l ∈ found → case_link l) →
  only_case_links s0 s → only_case_links s0 (set_links (links s ∪ found) s1).
Proof.
  intros Hfound H H0 l. simpl. rewrite elem_of_union.
  intros [Hl|Hl]; [by apply H|by apply Hfound].
Qed.

Ltac links_leaf :=
  unfold open_wb, write_bytes, close_file;
  repeat first [ reflexivity
               | apply only_case_links_log
               | apply only_case_links_union;
                 [eapply case_links_found; eassumption|]
               | apply only_case_links_neutral; [reflexivity|] ].

Lemma defendant_task_only_case_links d s1 :
  seg only_case_links (download_defendant_data d) (λ _, only_case_links) s1 s1.
Proof. unfold_tasks. seg_walk links_leaf. Qed.

Lemma sheet_task_only_case_links link s1 :
  seg only_case_links (download_sheet_data link) (λ _, only_case_links) s1 s1.
Proof. unfold_tasks. seg_walk links_leaf. Qed.

Lemma issues_neutral allowed (f : State → State) s0 s :
  requests (f s) = requests s → issues allowed s0 s → issues allowed s0 (f s).
Proof. intros Hr (new & Hnew & Hall). exists new. by rewrite Hr. Qed.

(** *** The log only grows *)

Lemma log_stream_log message s :
  log_stream (log message s) = log_stream s ++ PyStr.utf8 (entry message s).
Proof.
  unfold log_stream. rewrite log_buffer_log, files_log.
  destruct (log_len s >? 100000).
  - rewrite lookup_insert_eq. simpl.
    rewrite utf8_app, app_nil_r, app_assoc. reflexivity.
  - rewrite utf8_app, app_assoc. reflexivity.
Qed.

Lemma log_stream_write_log s : log_stream (write_log s) = log_stream s.
Proof.
  unfold log_stream.
  destruct (write_log_flushes log_file s) as (-> & _ & ->). simpl.
  by rewrite app_nil_r.
Qed.

Lemma appends_log_neutral (f : State → State) s0 s :
  log_buffer (f s) = log_buffer s →
  files (f s) !! log_file = files s !! log_file →
  appends_log s0 s → appends_log s0 (f s).
Proof.
  intros Hb Hf [added H]. exists added. rewrite <-H.
  unfold log_stream. by rewrite Hb, Hf.
Qed.

Lemma render_entry message s :
  render [(stamp strftime s, message)] = entry message s.
Proof.
  unfold render, entry. simpl. by rewrite !app_assoc_str, app_empty_str.
Qed.

Lemma log_stream_logged entries message s0 s :
  log_stream s = log_stream s0 ++ PyStr.utf8 (render entries) →
  log_stream (log message s)
    = log_stream s0
      ++ PyStr.utf8 (render (entries ++ [(stamp strftime s, message)])).
Proof.
  intros H.
  by rewrite log_stream_log, H, utf8_render_app, render_entry, <-app_assoc.
Qed.

Lemma appends_log_log message s0 s :
  appends_log s0 s → appends_log s0 (log message s).
Proof. intros [entries H]. eexists. by apply log_stream_logged. Qed.

Lemma appends_log_write_log s0 s :
  appends_log s0 s → appends_log s0 (write_log s).
Proof. intros [added H]. exists added. by rewrite log_stream_write_log. Qed.

Ltac log_leaf :=
  unfold open_wb, write_bytes, close_file;
  repeat first [ reflexivity
               | apply appends_log_log
               | apply appends_log_neutral;
                 [reflexivity
                 |simpl; rewrite ?lookup_insert_ne by done; reflexivity|] ].

Lemma defendant_task_appends_log d s1 :
  defendant_fname d ≠ log_file →
  seg appends_log (download_defendant_data d) (λ _, appends_log) s1 s1.
Proof. intros Hd. unfold_tasks. seg_walk log_leaf. Qed.

Lemma sheet_task_appends_log link s1 :
  docket_fname link ≠ log_file →
  seg appends_log (download_sheet_data link) (λ _, appends_log) s1 s1.
Proof. intros Hd. unfold_tasks. seg_walk log_leaf. Qed.

(** X16: a run with [verbose] off prints nothing, whatever the tasks
    meet and in whatever order they run. *)
Theorem munch_quiet (start stop : Z) (sched1 sched2 : list nat)
    (s s_fin : State) :
  munch start stop false sched1 sched2 s = Some s_fin →
  stdout s_fin = stdout s ∧ verbose s_fin = false.
Proof.
  intros Hrun.
  assert (H : quiet (set_verbose false s) s_fin).
  { apply (munch_keeps quiet start stop false sched1 sched2);
      [| | | | |exact Hrun].
    - intros m s0 s1 H. by apply quiet_log.
    - intros s0 s1 H. by apply quiet_neutral.
    - intros s0 s1 H. by apply quiet_neutral.
    - intros d _ s1. apply defendant_task_quiet.
    - intros s2 l _ _ s1. apply sheet_task_quiet. }
  destruct (H eq_refl) as [Hv Ho]. done.
Qed.

(** X17: the GETs of a run, in every schedule, are for defendants of the
    range and for docket-sheet links: a URL requested is [def_url] with an
    ID of [range(start, stop)], or [sheet_url] with a link that
    contains [666666.php]. *)
Theorem munch_requests_confined (start stop : Z) (v : bool)
    (sched1 sched2 : list nat) (s s_fin : State) :
  (∀ l, l ∈ links s → case_link l) →
  munch start stop v sched1 sched2 s = Some s_fin →
  ∃ new, requests s_fin = requests s ++ new ∧
    Forall (λ u, (∃ d, start ≤ d < stop ∧ u = def_url +:+ PyStr.of_int d) ∨
                 (∃ link, case_link link ∧ u = sheet_url +:+ link)) new.
Proof.
  intros Hlinks Hrun.
  set (allowed := λ u : string,
         (∃ d, start ≤ d < stop ∧ u = def_url +:+ PyStr.of_int d) ∨
         (∃ link, case_link link ∧ u = sheet_url +:+ link)).
  assert (H : both only_case_links (issues allowed) (set_verbose v s) s_fin);
    [|destruct H as [_ H]; exact H].
  apply (munch_keeps _ start stop v sched1 sched2); [| | | | |exact Hrun].
  - intros m s0 s1 [H1 H2]. split; [by apply only_case_links_log|].
    apply issues_neutral; [apply requests_log|done].
  - intros s0 s1 [H1 H2]. split; [by apply only_case_links_neutral|].
    by apply issues_neutral.
  - intros s0 s1 [H1 H2]. split.
    + intros _ l Hl. simpl in Hl. by apply not_elem_of_empty in Hl.
    + by apply issues_neutral.
  - intros d Hd s1. apply seg_both.
    + apply defendant_task_only_case_links.
    + apply defendant_task_issues. left. by exists d.
  - intros s2 l [H1 _] Hl s1. apply seg_both.
    + apply sheet_task_only_case_links.
    + apply sheet_task_issues. right. exists l. split; [|done].
      by apply (H1 Hlinks).
Qed.

(** What [munch_defendants] logs: "Munching started", then what the
    tasks log, then "Munching completed" unless a fan-out raised. *)
Lemma munch_defendants_log defendants sched1 sched2 s s' r :
  (∀ d, defendant_fname d ≠ log_file) →
  (∀ link, docket_fname link ≠ log_file) →
  munch_defendants defendants sched1 sched2 s = Some (s', r) →
  ∃ mid tail,
    log_stream s'
      = log_stream s
        ++ PyStr.utf8 (render ((stamp strftime s, "Munching started")
                               :: mid ++ tail)) ∧
    match r with
    | Ok _ => ∃ t, tail = [(t, "Munching completed")]
    | Err _ => tail = []
    end.
Proof.
  intros Hdef Hdocket. unfold munch_defendants.
  assert (Hstart : log_stream (log "Munching started" s)
                   = log_stream s
                     ++ PyStr.utf8 (render [(stamp strftime s,
                                             "Munching started")])).
  { by rewrite log_stream_log, render_entry. }
  destruct (gather sched1 _ _) as [[s2 r1]|] eqn:H1; simpl; [|done].
  assert (G1 : appends_log (log "Munching started" s) s2).
  { eapply fan_out_keeps; [apply _| |exact H1].
    rewrite Forall_fmap, Forall_forall. intros d _ s0.
    by apply defendant_task_appends_log. }
  destruct G1 as [mid1 G1].
  destruct r1 as [[]|e1].
  - destruct (gather sched2 _ _) as [[s3 r2]|] eqn:H2; simpl; [|done].
    assert (G2 : appends_log s2 s3).
    { eapply fan_out_keeps; [apply _| |exact H2].
      rewrite Forall_fmap, Forall_forall. intros l _ s0.
      by apply sheet_task_appends_log. }
    destruct G2 as [mid2 G2].
    assert (G3 : log_stream s3
                 = log_stream s
                   ++ PyStr.utf8 (render ((stamp strftime s,
                                           "Munching started")
                                          :: mid1 ++ mid2))).
    { rewrite G2, G1, Hstart, <-!app_assoc. f_equal.
      change ((stamp strftime s, "Munching started") :: mid1 ++ mid2)
        with ([(stamp strftime s, "Munching started")] ++ mid1 ++ mid2).
      by rewrite !utf8_render_app. }
    destruct r2 as [[]|e2]; intros [= <- <-].
    + exists (mid1 ++ mid2), [(stamp strftime (set_links ∅ s3),
                               "Munching completed")].
      split; [|by eexists].
      rewrite app_comm_cons. apply log_stream_logged. exact G3.
    + exists (mid1 ++ mid2), []. by rewrite app_nil_r.
  - intros [= <- <-]. exists mid1, []. split; [|done].
    rewrite app_nil_r, G1, Hstart, <-app_assoc. f_equal.
    change ((stamp strftime s, "Munching started") :: mid1)
      with ([(stamp strftime s, "Munching started")] ++ mid1).
    by rewrite utf8_render_app.
Qed.

(** X18: a run only adds to the log, and adds whole entries.  Every call
    of [log] extends the log (the log file followed by the buffer) by its
    own entry.  When no data file has the name of the log file, the log
    file at the end of a run holds what it held before the run, then what
    was in the buffer, then a sequence of entries; that sequence begins
    with "Munching started" and ends with "Munching completed" or with
    "Munching cancelled due to exception", or is that last entry alone
    when the scan of the directory raised; the buffer is empty. *)
Theorem munch_log_append_only (start stop : Z) (v : bool)
    (sched1 sched2 : list nat) (s s_fin : State) :
  (∀ d, defendant_fname d ≠ log_file) →
  (∀ link, docket_fname link ≠ log_file) →
  munch start stop v sched1 sched2 s = Some s_fin →
  log_buffer s_fin = "" ∧
  (∀ message s', log_stream (log message s')
                 = log_stream s' ++ PyStr.utf8 (entry message s')) ∧
  ∃ entries,
    files s_fin !! log_file =
      Some (default [] (files s !! log_file) ++ PyStr.utf8 (log_buffer s)
            ++ PyStr.utf8 (render entries)) ∧
    match munch_work_list start stop (set_verbose v s) with
    | Ok _ =>
        ∃ t mid last,
          entries = (t, "Munching started") :: mid ++ [last] ∧
          (last.2 = "Munching completed" ∨
           ∃ e, last.2 = "Munching cancelled due to exception: "
                         +:+ Exn.str e)
    | Err e =>
        ∃ t, entries = [(t, "Munching cancelled due to exception: "
                            +:+ Exn.str e)]
    end.
Proof.
  intros Hdef Hdocket Hrun.
  split_and!; [|apply log_stream_log|].
  { revert Hrun. unfold munch.
    destruct (munch_body _ _ _ _ _) as [[s1 [[]|e]]|]; simpl; [| |done].
    - intros [= <-]. apply write_log_flushes.
    - intros [= <-]. apply write_log_flushes. }
  assert (Hfile : ∀ s' entries,
            log_stream s' = log_stream (set_verbose v s)
                            ++ PyStr.utf8 (render entries) →
            files (write_log s') !! log_file =
              Some (default [] (files s !! log_file)
                    ++ PyStr.utf8 (log_buffer s)
                    ++ PyStr.utf8 (render entries))).
  { intros s' entries H.
    destruct (write_log_flushes log_file s') as (_ & _ & ->).
    rewrite app_assoc. f_equal. exact H. }
  revert Hrun. unfold munch. rewrite munch_body_work_list.
  destruct (munch_work_list start stop (set_verbose v s)) as [work|e0].
  - destruct (munch_defendants work sched1 sched2 (set_verbose v s))
      as [[s1 r]|] eqn:Hbody; simpl; [|done].
    destruct (munch_defendants_log _ _ _ _ _ _ Hdef Hdocket Hbody)
      as (mid & tail & Hlog & Htail).
    destruct r as [[]|e]; intros [= <-].
    + destruct Htail as [t ->]. eexists. split; [by apply Hfile|].
      eexists _, mid, _. split; [reflexivity|]. by left.
    + subst tail. rewrite app_nil_r in Hlog.
      eexists. split.
      * apply Hfile. rewrite log_stream_write_log.
        apply log_stream_logged. exact Hlog.
      * eexists _, mid, _. split; [reflexivity|]. right. by eexists.
  - simpl. intros [= <-]. eexists. split.
    + apply Hfile. rewrite log_stream_write_log.
      apply (log_stream_logged []). by rewrite app_nil_r.
    + by eexists.
Qed.

End Invariants.

Lemma munch_quiet_witness :
  stdout
    (default Demo.s0
       (Demo.munch 100000 100002 false [0; 1; 0; 1; 0; 1; 0; 0; 0]%nat
                   [0; 0; 0; 0; 0; 0]%nat Demo.s0))
  = [].
Proof.
  refine (proj1 (munch_quiet "defendants/" "dockets/" "log.txt"
            Demo.strftime Demo.http_get Demo.html_parser id Demo.no_fault
            (λ l, reflexivity l)
            100000 100002 [0; 1; 0; 1; 0; 1; 0; 0; 0]%nat
            [0; 0; 0; 0; 0; 0]%nat Demo.s0 _ _)).
  vm_compute. reflexivity.
Defined.

Lemma munch_requests_confined_witness :
  ∃ new,
    requests
      (default Demo.s0
         (Demo.munch 100000 100002 false [0; 1; 0; 1; 0; 1; 0; 0; 0]%nat
                     [0; 0; 0; 0; 0; 0]%nat Demo.s0))
    = requests Demo.s0 ++ new ∧
    Forall (λ u, (∃ d, 100000 ≤ d < 100002 ∧ u = def_url +:+ PyStr.of_int d) ∨
                 (∃ link, case_link link ∧ u = sheet_url +:+ link)) new.
Proof.
  apply (munch_requests_confined "defendants/" "dockets/" "log.txt"
           Demo.strftime Demo.http_get Demo.html_parser id Demo.no_fault
           (λ l, reflexivity l)
           100000 100002 false [0; 1; 0; 1; 0; 1; 0; 0; 0]%nat
           [0; 0; 0; 0; 0; 0]%nat Demo.s0).
  - intros l Hl. by apply not_elem_of_empty in Hl.
  - vm_compute. reflexivity.
Defined.

Lemma munch_log_append_only_witness :
  log_buffer
    (default Demo.s0
       (Demo.munch 100000 100002 false [0; 1; 0; 1; 0; 1; 0; 0; 0]%nat
                   [0; 0; 0; 0; 0; 0]%nat Demo.s0))
  = "".
Proof.
  refine (proj1 (munch_log_append_only "defendants/" "dockets/" "log.txt"
            Demo.strftime Demo.http_get Demo.html_parser id Demo.no_fault
            100000 100002 false [0; 1; 0; 1; 0; 1; 0; 0; 0]%nat
            [0; 0; 0; 0; 0; 0]%nat Demo.s0 _ _ _ _)).
  - intros d. discriminate.
  - intros link. discriminate.
  - vm_compute. reflexivity.
Defined.
